(** * plotlib.plot_mod: the band (envelope) computation of [plot_band]

    A shallow embedding of [plot_band] from [src/plotlib/plot_mod.py] and the
    properties of the lower/upper envelope it computes, followed by
    [plot_limits] and [plot_filled_contour] of the same file.

    Modelling choices.
    - The loop of [plot_band] is embedded twice.  In the first embedding
      samples and the width are exact rationals ([Q]) and an entry of the two
      output arrays is a rational or one of the two infinities the arrays are
      initialised with ([float]); it carries the properties that rest on the
      control flow and on the order of the values only.  The second
      embedding ([Module F64]) computes in IEEE 754 binary64 as NumPy does
      on float64 arrays, with rounding, signed zeros, infinities and NaN; it
      carries the properties that speak of which samples pass the window
      test and of the values stored.
    - The two NumPy arrays are lists updated by index; reading or writing
      past the end raises [IndexError], as NumPy does.
    - [zip] stops at the shorter of its two arguments, as Python's does.
    - The drawing backend is a log of the requests it receives. *)

From Stdlib Require Import QArith Qabs Lqa SpecFloat.
From stdpp Require Import base list strings sorting.

Local Open Scope Q_scope.

(** ** Values held by the output arrays *)

Inductive float : Type :=
  | NegInf
  | Fin (q : Q)
  | PosInf.

(** Strict comparison of rationals as a boolean. *)
Definition Qlt_bool (p q : Q) : bool := negb (Qle_bool q p).

(** [a < b] on array entries. *)
Definition float_ltb (a b : float) : bool :=
  match a, b with
  | NegInf, NegInf => false
  | NegInf, _ => true
  | Fin p, Fin q => Qlt_bool p q
  | Fin _, PosInf => true
  | _, _ => false
  end.

(** [a <= b] on array entries, as a proposition. *)
Definition float_le (a b : float) : Prop :=
  match a, b with
  | NegInf, _ => True
  | _, PosInf => True
  | Fin p, Fin q => p <= q
  | _, _ => False
  end.

(** ** Exceptions *)

Inductive exn : Type :=
  | IndexError.

Inductive result (A : Type) : Type :=
  | Ok (a : A)
  | Raise (e : exn).

Arguments Ok {A} a.
Arguments Raise {A} e.

#[export] Instance result_bind : MBind result :=
  fun A B (k : A -> result B) (m : result A) =>
    match m with
    | Ok a => k a
    | Raise e => Raise e
    end.

(** A [for] loop whose body may raise: the state is threaded through the
    items, the first exception ends the loop. *)
Fixpoint for_each {A S : Type} (body : S -> A -> result S) (items : list A) (s : S)
  : result S :=
  match items with
  | [] => Ok s
  | a :: rest => s' ← body s a; for_each body rest s'
  end.

(** ** Arrays *)

(** [a[i]] *)
Definition getitem (a : list float) (i : nat) : result float :=
  match a !! i with
  | Some v => Ok v
  | None => Raise IndexError
  end.

(** [a[i] = v] *)
Definition setitem (a : list float) (i : nat) (v : float) : result (list float) :=
  match a !! i with
  | Some _ => Ok (<[i := v]> a)
  | None => Raise IndexError
  end.

(** [enumerate(l)], counting from [start]. *)
Fixpoint enumerate_from {A : Type} (start : nat) (l : list A) : list (nat * A) :=
  match l with
  | [] => []
  | a :: rest => (start, a) :: enumerate_from (S start) rest
  end.

Definition enumerate {A : Type} (l : list A) : list (nat * A) := enumerate_from 0 l.

(** ** The envelope loop of [plot_band] *)

(** The pair of arrays [lower_y], [upper_y]. *)
Record bounds : Type := Bounds { lower_y : list float; upper_y : list float }.

(** [abs(x - x_prime) < width] *)
Definition in_window (width x : Q) (p : Q * Q) : bool :=
  Qlt_bool (Qabs (x - fst p)) width.

(** Body of the inner loop, for one pair [(x_prime, y_prime)] of the zip:
<<
    if abs(x - x_prime) < width:
        if y_prime < lower_y[index]:
            lower_y[index] = y_prime
        elif y_prime > upper_y[index]:
            upper_y[index] = y_prime
>> *)
Definition band_update (width : Q) (index : nat) (x : Q) (b : bounds) (p : Q * Q)
  : result bounds :=
  let y_prime := snd p in
  if in_window width x p then
    lo ← getitem (lower_y b) index;
    if float_ltb (Fin y_prime) lo then
      lower' ← setitem (lower_y b) index (Fin y_prime);
      Ok (Bounds lower' (upper_y b))
    else
      up ← getitem (upper_y b) index;
      if float_ltb up (Fin y_prime) then
        upper' ← setitem (upper_y b) index (Fin y_prime);
        Ok (Bounds (lower_y b) upper')
      else Ok b
  else Ok b.

(** Body of the outer loop, for one item [(index, x)] of [enumerate(x_data)]. *)
Definition band_row (x_data y_data : list Q) (width : Q) (b : bounds) (item : nat * Q)
  : result bounds :=
  for_each (band_update width (fst item) (snd item)) (zip x_data y_data) b.

(** The arrays as [np.full] creates them. *)
Definition initial_bounds (y_data : list Q) : bounds :=
  Bounds (replicate (length y_data) PosInf) (replicate (length y_data) NegInf).

(** The envelope part of [plot_band]: both arrays after the double loop. *)
Definition plot_band_envelope (x_data y_data : list Q) (width : Q) : result bounds :=
  for_each (band_row x_data y_data width) (enumerate x_data) (initial_bounds y_data).

(** ** The drawing requests of [plot_band] *)

(** The two attributes of [schemes.Scheme] that [plot_band] reads. *)
Record Scheme : Type := { colour : string; label : string }.

(** A request received by the backend: [ax.fill_between(x, y1, y2,
    where=None, facecolor=..., alpha=...)] or [plt.plot(x, y, fmt,
    color=..., label=..., alpha=..., ms=...)].  The argument [where] is
    always [None] and is left out. *)
Inductive draw_call : Type :=
  | fill_between (x : list Q) (y1 y2 : list float) (facecolor : string) (alpha : Q)
  | plot (x y : Z) (fmt : string) (color : string) (lbl : string) (alpha : Q) (ms : Z).

(** [plot_band]: the envelope, then the fill request and the legend proxy. *)
Definition plot_band (x_data y_data : list Q) (width : Q) (scheme : Scheme)
  : result (list draw_call) :=
  b ← plot_band_envelope x_data y_data width;
  Ok [ fill_between x_data (lower_y b) (upper_y b) (colour scheme) (7 # 10);
       plot (-1) (-1) "s" (colour scheme) (label scheme) (7 # 10) 15 ].

(** ** Permuting a series *)

(** [l] read through the index list [p]: entry [k] of the result is
    [l[p[k]]]. *)
Definition apply_perm {A : Type} (p : list nat) (l : list A) : list A :=
  omap (fun k => l !! k) p.

(** ** What one row computes *)

(** Not in the source: the inner loop seen from the one entry of each array
    it works on.  [scan_step] is the effect of one pass of the body on the
    pair [(lower_y[index], upper_y[index])]; lemma [row_in_range] below ties
    it to [band_update]. *)
Definition scan_step (width x : Q) (acc : float * float) (p : Q * Q) : float * float :=
  if in_window width x p then
    if float_ltb (Fin (snd p)) (fst acc) then (Fin (snd p), snd acc)
    else if float_ltb (snd acc) (Fin (snd p)) then (fst acc, Fin (snd p))
    else acc
  else acc.

Definition scan (width x : Q) (ps : list (Q * Q)) (acc : float * float) : float * float :=
  fold_left (scan_step width x) ps acc.

Definition row_bounds (width : Q) (ps : list (Q * Q)) (x : Q) : float * float :=
  scan width x ps (PosInf, NegInf).

(** Does a row at an index past the end of the arrays touch them? *)
Definition row_touches (width : Q) (ps : list (Q * Q)) (x : Q) : bool :=
  existsb (in_window width x) ps.

(** ** [plot_limits] *)

(** Requests made to an axis object. *)
Inductive axis_request : Type :=
  | set_xlim (left right : Q)
  | set_ylim (bottom top : Q).

(** A run of a function that talks to the backend: the requests made so
    far, in order, and how the run ended.  A request made before an
    exception stays made. *)
Record run (R A : Type) : Type := Run { requests : list R; outcome : result A }.

Arguments Run {R A} requests outcome.
Arguments requests {R A} r.
Arguments outcome {R A} r.

#[export] Instance run_bind {R : Type} : MBind (run R) :=
  fun A B (k : A -> run R B) (m : run R A) =>
    match outcome m with
    | Ok a => Run (requests m ++ requests (k a)) (outcome (k a))
    | Raise e => Run (requests m) (Raise e)
    end.

(** Make one request. *)
Definition emit {R : Type} (r : R) : run R unit := Run [r] (Ok tt).

(** Evaluate an expression that makes no request. *)
Definition eval {R A : Type} (m : result A) : run R A := Run [] m.

(** [l[i]] on a list of numbers. *)
Definition item (l : list Q) (i : nat) : result Q :=
  match l !! i with
  | Some v => Ok v
  | None => Raise IndexError
  end.

(** [plot_limits(ax, limits=None)]:
<<
    if limits is not None:
        ax.set_xlim([limits[0], limits[1]])
        ax.set_ylim([limits[2], limits[3]])
>> *)
Definition plot_limits (limits : option (list Q)) : run axis_request unit :=
  match limits with
  | None => Run [] (Ok tt)
  | Some limits =>
      xmin ← eval (item limits 0);
      xmax ← eval (item limits 1);
      _ ← emit (set_xlim xmin xmax);
      ymin ← eval (item limits 2);
      ymax ← eval (item limits 3);
      emit (set_ylim ymin ymax)
  end.

(** ** [plot_filled_contour] *)

#[export] Instance Qle_dec : RelDecision Qle :=
  fun x y =>
    match Qlt_le_dec y x with
    | left H => right (Qlt_not_le y x H)
    | right H => left H
    end.

(** The attributes of [schemes.Scheme] that [plot_filled_contour] reads. *)
Record ContourScheme : Type := { colours : list string; level_names : list string }.

(** [bin_limits], a list [[xmin, xmax], [ymin, ymax]]. *)
Definition BinLimits : Type := (Q * Q) * (Q * Q).

Module FilledContour.
Section WithArray.
(** The two-dimensional array type of the data is NumPy's; what
    [plot_filled_contour] uses of it is the transpose [data.T] and the
    largest entry [data.max()], which does not exist (ValueError) for an
    array without entries. *)
Context {ndarray : Type}.
Variable T : ndarray -> ndarray.
Variable max : ndarray -> option Q.

(** Requests made to [plt]: [contourf(data, levels, colors=..., extent=...,
    alpha=...)] (the constant arguments [hold], [interpolation] and [origin]
    are left out) and [plot(x, y, fmt, color=..., label=..., alpha=...,
    ms=...)]. *)
Inductive request : Type :=
  | contourf (data : ndarray) (levels : list Q) (colors : list string)
             (extent : list Q) (alpha : Q)
  | plot (x y : Q) (fmt : string) (color : string) (lbl : string) (alpha : Q) (ms : Z).

(** [np.append(sort(levels), data.max())] *)
Definition contour_levels (levels : list Q) (top : Q) : list Q :=
  merge_sort Qle levels ++ [top].

(** The legend proxies: one [plot] request per pair of
    [zip(scheme.level_names, scheme.colours)]. *)
Definition legend_proxies (scheme : ContourScheme) (x_outside y_outside : Q)
  : list request :=
  map (fun nc : string * string =>
         plot x_outside y_outside "s" (snd nc) (fst nc) (7 # 10) 15)
      (zip (level_names scheme) (colours scheme)).

(** [plot_filled_contour(data, levels, scheme, bin_limits)]; [None] is the
    ValueError of [data.max()], raised before any request. *)
Definition plot_filled_contour (data : ndarray) (levels : list Q)
    (scheme : ContourScheme) (bin_limits : BinLimits) : option (list request) :=
  let bin_limits :=
    [fst (fst bin_limits); snd (fst bin_limits);
     fst (snd bin_limits); snd (snd bin_limits)] in
  match max data with
  | None => None
  | Some top =>
      let levels := contour_levels levels top in
      let x_outside := 10 * Qabs (nth 1 bin_limits 0) in
      let y_outside := 10 * Qabs (nth 3 bin_limits 0) in
      Some (contourf (T data) levels (colours scheme) bin_limits (7 # 10)
              :: legend_proxies scheme x_outside y_outside)
  end.
End WithArray.
End FilledContour.

(** Not in the source: arrays given by the list of their rows, to run the
    model on; [rows_T] is the transpose of a rectangular array and
    [rows_max] its largest entry. *)
Fixpoint rows_T (m : list (list Q)) : list (list Q) :=
  match m with
  | [] => []
  | r :: rest =>
      match rest with
      | [] => map (fun a => [a]) r
      | _ :: _ => zip_with cons r (rows_T rest)
      end
  end.

Definition rows_max (m : list (list Q)) : option Q :=
  match concat m with
  | [] => None
  | a :: rest => Some (fold_left (fun m v => if Qlt_bool m v then v else m) rest a)
  end.

(** ** [plot_band] on float64 arrays *)

(** The same loop with the arithmetic of NumPy's float64: [x_data] and
    [y_data] are arrays of dtype float64 and [width] is a float, so every
    number is an IEEE 754 binary64 value ([spec_float], with its signed
    zeros, infinities and NaN), the subtraction [x - x_prime] is rounded to
    nearest (ties to even), and the comparisons are the IEEE ones (false when
    an operand is NaN).  Storing a float64 into a float64 array keeps it
    as it is. *)
Module F64.

Definition prec : Z := 53%Z.
Definition emax : Z := 1024%Z.

(** The binary64 value nearest to [m * 2^e]; [of_Z z] is [float(z)]. *)
Definition of_scaled (m e : Z) : spec_float := binary_normalize prec emax m e false.
Definition of_Z (z : Z) : spec_float := of_scaled z 0.

(** The number a finite binary64 value stands for. *)
Definition to_Q (f : spec_float) : option Q :=
  match f with
  | S754_zero _ => Some 0
  | S754_finite s m e =>
      let n := if s then Z.neg m else Z.pos m in
      Some (match e with
            | Z0 => n # 1
            | Z.pos k => (n * 2 ^ Z.pos k)%Z # 1
            | Z.neg k => n # (2 ^ k)%positive
            end)
  | _ => None
  end.

Definition inf : spec_float := S754_infinity false.
Definition neg_inf : spec_float := S754_infinity true.

Definition is_nan (f : spec_float) : bool :=
  match f with
  | S754_nan => true
  | _ => false
  end.

(** Neither NaN nor an infinity. *)
Definition is_finite (f : spec_float) : bool :=
  match f with
  | S754_zero _ | S754_finite _ _ _ => true
  | _ => false
  end.

(** [a < b] and [a <= b] of float64. *)
Definition ltb (a b : spec_float) : bool := SFltb a b.
Definition leb (a b : spec_float) : bool := SFleb a b.

(** [a[i]] and [a[i] = v] on a float64 array. *)
Definition getitem (a : list spec_float) (i : nat) : result spec_float :=
  match a !! i with
  | Some v => Ok v
  | None => Raise IndexError
  end.

Definition setitem (a : list spec_float) (i : nat) (v : spec_float)
  : result (list spec_float) :=
  match a !! i with
  | Some _ => Ok (<[i := v]> a)
  | None => Raise IndexError
  end.

Record bounds : Type :=
  Bounds { lower_y : list spec_float; upper_y : list spec_float }.

(** [abs(x - x_prime) < width] *)
Definition in_window (width x : spec_float) (p : spec_float * spec_float) : bool :=
  ltb (SFabs (SFsub prec emax x (fst p))) width.

(** Body of the inner loop:
<<
    if abs(x - x_prime) < width:
        if y_prime < lower_y[index]:
            lower_y[index] = y_prime
        elif y_prime > upper_y[index]:
            upper_y[index] = y_prime
>> *)
Definition band_update (width : spec_float) (index : nat) (x : spec_float)
    (b : bounds) (p : spec_float * spec_float) : result bounds :=
  let y_prime := snd p in
  if in_window width x p then
    lo ← getitem (lower_y b) index;
    if ltb y_prime lo then
      lower' ← setitem (lower_y b) index y_prime;
      Ok (Bounds lower' (upper_y b))
    else
      up ← getitem (upper_y b) index;
      if ltb up y_prime then
        upper' ← setitem (upper_y b) index y_prime;
        Ok (Bounds (lower_y b) upper')
      else Ok b
  else Ok b.

Definition band_row (x_data y_data : list spec_float) (width : spec_float)
    (b : bounds) (item : nat * spec_float) : result bounds :=
  for_each (band_update width (fst item) (snd item)) (zip x_data y_data) b.

(** [np.full(len(y_data), float("inf"))] and [np.full(len(y_data), -float("inf"))]. *)
Definition initial_bounds (y_data : list spec_float) : bounds :=
  Bounds (replicate (length y_data) inf) (replicate (length y_data) neg_inf).

Definition plot_band_envelope (x_data y_data : list spec_float) (width : spec_float)
  : result bounds :=
  for_each (band_row x_data y_data width) (enumerate x_data) (initial_bounds y_data).

Inductive draw_call : Type :=
  | fill_between (x : list spec_float) (y1 y2 : list spec_float)
                 (facecolor : string) (alpha : Q)
  | plot (x y : Z) (fmt : string) (color : string) (lbl : string) (alpha : Q) (ms : Z).

Definition plot_band (x_data y_data : list spec_float) (width : spec_float)
    (scheme : Scheme) : result (list draw_call) :=
  b ← plot_band_envelope x_data y_data width;
  Ok [ fill_between x_data (lower_y b) (upper_y b) (colour scheme) (7 # 10);
       plot (-1) (-1) "s" (colour scheme) (label scheme) (7 # 10) 15 ].

(** Some row at an index past the end of the arrays finds one of the
    zipped samples inside its window, by the test as the code computes it. *)
Definition touches_past_end (x_data y_data : list spec_float) (width : spec_float)
  : Prop :=
  exists (i j : nat) (xi xj : spec_float),
    (length y_data <= i)%nat /\ (j < length y_data)%nat /\
    x_data !! i = Some xi /\ x_data !! j = Some xj /\
    ltb (SFabs (SFsub prec emax xi xj)) width = true.

(** Not in the source: the inner loop seen from the one entry of each array
    it works on (see [f64_row_in_range]). *)
Definition scan_step (width x : spec_float) (acc : spec_float * spec_float)
    (p : spec_float * spec_float) : spec_float * spec_float :=
  if in_window width x p then
    if ltb (snd p) (fst acc) then (snd p, snd acc)
    else if ltb (snd acc) (snd p) then (fst acc, snd p)
    else acc
  else acc.

Definition scan (width x : spec_float) (ps : list (spec_float * spec_float))
    (acc : spec_float * spec_float) : spec_float * spec_float :=
  fold_left (scan_step width x) ps acc.

Definition row_bounds (width : spec_float) (ps : list (spec_float * spec_float))
    (x : spec_float) : spec_float * spec_float :=
  scan width x ps (inf, neg_inf).

Definition row_touches (width : spec_float) (ps : list (spec_float * spec_float))
    (x : spec_float) : bool :=
  existsb (in_window width x) ps.

(** The order of the non-NaN values as triples of integers compared
    lexicographically. *)
Definition key (f : spec_float) : Z * Z * Z :=
  match f with
  | S754_infinity true => (-2, 0, 0)%Z
  | S754_finite true m e => (-1, - e, Z.neg m)%Z
  | S754_zero _ => (0, 0, 0)%Z
  | S754_nan => (0, 0, 0)%Z
  | S754_finite false m e => (1, e, Z.pos m)%Z
  | S754_infinity false => (2, 0, 0)%Z
  end.

Definition key_lt (a b : Z * Z * Z) : Prop :=
  (fst (fst a) < fst (fst b) \/
   (fst (fst a) = fst (fst b) /\
    (snd (fst a) < snd (fst b) \/ (snd (fst a) = snd (fst b) /\ snd a < snd b))))%Z.

End F64.

(** ** Comparisons *)

Lemma Qlt_bool_iff (p q : Q) : Qlt_bool p q = true <-> p < q.
Proof.
  unfold Qlt_bool. rewrite negb_true_iff.
  split.
  - intros H. apply Qnot_le_lt. intros Hle.
    apply Qle_bool_iff in Hle. congruence.
  - intros H. destruct (Qle_bool q p) eqn:E; [|reflexivity].
    apply Qle_bool_iff in E. exfalso. apply (Qlt_not_le _ _ H E).
Qed.

Lemma Qlt_bool_false (p q : Q) : Qlt_bool p q = false <-> q <= p.
Proof.
  unfold Qlt_bool. rewrite negb_false_iff. apply Qle_bool_iff.
Qed.

Lemma float_le_refl (a : float) : float_le a a.
Proof. destruct a; simpl; auto. apply Qle_refl. Qed.

Lemma float_le_trans (a b c : float) : float_le a b -> float_le b c -> float_le a c.
Proof.
  destruct a, b, c; simpl; auto; try contradiction.
  apply Qle_trans.
Qed.

Lemma float_ltb_le (a b : float) : float_ltb a b = true -> float_le a b.
Proof.
  destruct a, b; simpl; auto; try discriminate.
  intros H. apply Qlt_le_weak, Qlt_bool_iff, H.
Qed.

Lemma float_ltb_false_le (a b : float) : float_ltb a b = false -> float_le b a.
Proof.
  destruct a, b; simpl; auto; try discriminate.
  intros H. apply Qlt_bool_false, H.
Qed.

(** ** Loops *)

Lemma for_each_app {A S : Type} (body : S -> A -> result S) (l1 l2 : list A) (s : S) :
  for_each body (l1 ++ l2) s = s' ← for_each body l1 s; for_each body l2 s'.
Proof.
  revert s. induction l1 as [|a l1 IH]; intros s; simpl; [reflexivity|].
  destruct (body s a) as [s'|e]; simpl; [apply IH | reflexivity].
Qed.

Lemma enumerate_from_app {A : Type} (l1 l2 : list A) (k : nat) :
  enumerate_from k (l1 ++ l2) =
  enumerate_from k l1 ++ enumerate_from (k + length l1) l2.
Proof.
  revert k. induction l1 as [|a l1 IH]; intros k; simpl.
  - f_equal. lia.
  - f_equal. rewrite IH. f_equal. f_equal. lia.
Qed.

Lemma insert_middle {A : Type} (l1 l2 : list A) (x y : A) :
  <[length l1 := x]> (l1 ++ y :: l2) = l1 ++ x :: l2.
Proof.
  rewrite insert_app_r_alt by lia. rewrite Nat.sub_diag. reflexivity.
Qed.

(** ** One row *)

Section Row.
Variables (width : Q) (index : nat) (x : Q).

(** One pass of the inner loop's body at an index inside the arrays. *)
Lemma band_update_in_range (p : Q * Q) (lower upper : list float) (lo up : float) :
  lower !! index = Some lo ->
  upper !! index = Some up ->
  band_update width index x (Bounds lower upper) p =
  Ok (Bounds (<[index := fst (scan_step width x (lo, up) p)]> lower)
             (<[index := snd (scan_step width x (lo, up) p)]> upper)).
Proof.
  intros Hlo Hup. unfold band_update, scan_step, getitem, setitem.
  cbn [lower_y upper_y fst snd].
  destruct (in_window width x p).
  - rewrite Hlo. cbn [mbind result_bind].
    destruct (float_ltb (Fin p.2) lo).
    + cbn [mbind result_bind fst snd].
      rewrite (list_insert_id upper) by assumption. reflexivity.
    + rewrite Hup. cbn [mbind result_bind].
      destruct (float_ltb up (Fin p.2)); cbn [mbind result_bind fst snd].
      * rewrite (list_insert_id lower) by assumption. reflexivity.
      * rewrite !list_insert_id by assumption. reflexivity.
  - cbn [fst snd]. rewrite !list_insert_id by assumption. reflexivity.
Qed.

(** At an index inside the arrays the inner loop updates that entry of
    each array by [scan], and nothing else. *)
Lemma row_in_range (ps : list (Q * Q)) :
  forall (lower upper : list float) (lo up : float),
    lower !! index = Some lo ->
    upper !! index = Some up ->
    for_each (band_update width index x) ps (Bounds lower upper) =
    Ok (Bounds (<[index := fst (scan width x ps (lo, up))]> lower)
               (<[index := snd (scan width x ps (lo, up))]> upper)).
Proof.
  induction ps as [|p ps IH]; intros lower upper lo up Hlo Hup.
  - cbn. rewrite !list_insert_id by assumption. reflexivity.
  - pose proof (lookup_lt_Some _ _ _ Hlo) as Hl.
    pose proof (lookup_lt_Some _ _ _ Hup) as Hu.
    cbn [for_each scan fold_left].
    rewrite (band_update_in_range p lower upper lo up Hlo Hup).
    cbn [mbind result_bind].
    destruct (scan_step width x (lo, up) p) as [lo' up'] eqn:E.
    cbn [fst snd].
    rewrite (IH _ _ lo' up');
      [ | apply list_lookup_insert_eq; assumption
        | apply list_lookup_insert_eq; assumption ].
    rewrite !list_insert_insert_eq. reflexivity.
Qed.

Lemma band_update_out_of_range (p : Q * Q) (b : bounds) :
  (length (lower_y b) <= index)%nat ->
  band_update width index x b p =
  if in_window width x p then Raise IndexError else Ok b.
Proof.
  intros Hlen. unfold band_update, getitem.
  rewrite (lookup_ge_None_2 _ _ Hlen). reflexivity.
Qed.

(** At an index past the end the first sample inside the window raises. *)
Lemma row_out_of_range (ps : list (Q * Q)) (b : bounds) :
  (length (lower_y b) <= index)%nat ->
  for_each (band_update width index x) ps b =
  if row_touches width ps x then Raise IndexError else Ok b.
Proof.
  intros Hlen. unfold row_touches.
  induction ps as [|p ps IH]; [reflexivity|].
  cbn [for_each existsb].
  rewrite band_update_out_of_range by assumption.
  destruct (in_window width x p); cbn; [reflexivity | apply IH].
Qed.
End Row.

(** ** All rows *)

Section Rows.
Variables (x_data y_data : list Q) (width : Q).

Lemma band_row_item (b : bounds) (index : nat) (x : Q) :
  band_row x_data y_data width b (index, x) =
  for_each (band_update width index x) (zip x_data y_data) b.
Proof. reflexivity. Qed.

(** Rows whose indices lie inside the arrays fill them from left to
    right; entries not reached yet keep the value [np.full] gave them. *)
Lemma rows_in_range (xs : list Q) :
  forall (done_l done_u : list float) (k : nat),
    length done_l = length done_u ->
    for_each (band_row x_data y_data width) (enumerate_from (length done_l) xs)
      (Bounds (done_l ++ replicate (length xs + k) PosInf)
              (done_u ++ replicate (length xs + k) NegInf)) =
    Ok (Bounds (done_l ++ map (fun x => fst (row_bounds width (zip x_data y_data) x)) xs
                       ++ replicate k PosInf)
               (done_u ++ map (fun x => snd (row_bounds width (zip x_data y_data) x)) xs
                       ++ replicate k NegInf)).
Proof.
  induction xs as [|x xs IH]; intros done_l done_u k Hlen; [reflexivity|].
  cbn [enumerate_from for_each length Nat.add replicate map app].
  rewrite band_row_item.
  rewrite (row_in_range width (length done_l) x (zip x_data y_data) _ _ PosInf NegInf).
  - cbn [mbind result_bind]. fold (row_bounds width (zip x_data y_data) x).
    rewrite (insert_middle done_l), Hlen, (insert_middle done_u), <- Hlen.
    rewrite !(cons_middle _ done_l), !(cons_middle _ done_u), !app_assoc.
    specialize (IH (done_l ++ [(row_bounds width (zip x_data y_data) x).1])
                   (done_u ++ [(row_bounds width (zip x_data y_data) x).2]) k).
    rewrite !length_app in IH. cbn [length] in IH.
    rewrite Nat.add_1_r in IH.
    rewrite IH by lia.
    rewrite <- !app_assoc. reflexivity.
  - apply list_lookup_middle. reflexivity.
  - apply list_lookup_middle. exact Hlen.
Qed.

(** Rows whose indices lie past the end raise as soon as one of them has
    a sample inside its window, and otherwise leave the arrays alone. *)
Lemma rows_out_of_range (xs : list Q) :
  forall (k : nat) (b : bounds),
    (length (lower_y b) <= k)%nat ->
    for_each (band_row x_data y_data width) (enumerate_from k xs) b =
    if existsb (row_touches width (zip x_data y_data)) xs then Raise IndexError else Ok b.
Proof.
  induction xs as [|x xs IH]; intros k b Hlen; [reflexivity|].
  cbn [enumerate_from for_each existsb].
  rewrite band_row_item.
  rewrite row_out_of_range by assumption.
  destruct (row_touches width (zip x_data y_data) x); cbn; [reflexivity|].
  apply IH. lia.
Qed.

(** The double loop in closed form. *)
Theorem plot_band_envelope_eq :
  plot_band_envelope x_data y_data width =
  if existsb (row_touches width (zip x_data y_data)) (drop (length y_data) x_data)
  then Raise IndexError
  else Ok (Bounds
             (map (fun x => fst (row_bounds width (zip x_data y_data) x)) (take (length y_data) x_data)
                ++ replicate (length y_data - length x_data) PosInf)
             (map (fun x => snd (row_bounds width (zip x_data y_data) x)) (take (length y_data) x_data)
                ++ replicate (length y_data - length x_data) NegInf)).
Proof.
  unfold plot_band_envelope, enumerate, initial_bounds.
  replace (enumerate_from 0 x_data)
    with (enumerate_from 0 (take (length y_data) x_data ++ drop (length y_data) x_data))
    by (rewrite take_drop; reflexivity).
  rewrite enumerate_from_app, for_each_app.
  pose proof (rows_in_range (take (length y_data) x_data) [] []
                (length y_data - length x_data) eq_refl) as Hin.
  cbn [length app] in Hin.
  replace (length (take (length y_data) x_data)
           + (length y_data - length x_data))%nat
    with (length y_data) in Hin by (rewrite length_take; lia).
  rewrite Hin. cbn [mbind result_bind].
  destruct (decide (length x_data <= length y_data)%nat) as [Hle|Hgt].
  - rewrite drop_ge by assumption. reflexivity.
  - apply rows_out_of_range.
    cbn [lower_y Nat.add].
    rewrite length_app, length_map, length_replicate, length_take. lia.
Qed.
End Rows.

(** ** The scan of one window *)

Lemma float_ltb_le_trans (a b c : float) :
  float_ltb a b = true -> float_le b c -> float_ltb a c = true.
Proof.
  destruct a, b, c; simpl; auto; try discriminate; try contradiction.
  rewrite !Qlt_bool_iff. intros H1 H2. apply (Qlt_le_trans _ _ _ H1 H2).
Qed.

Lemma in_window_iff (width x : Q) (p : Q * Q) :
  in_window width x p = true <-> Qabs (x - fst p) < width.
Proof. apply Qlt_bool_iff. Qed.

Lemma in_window_wider (w1 w2 x : Q) (p : Q * Q) :
  w1 <= w2 -> in_window w1 x p = true -> in_window w2 x p = true.
Proof.
  rewrite !in_window_iff. intros Hw H. apply (Qlt_le_trans _ _ _ H Hw).
Qed.

Lemma in_window_nonpositive (width x : Q) (p : Q * Q) :
  width <= 0 -> in_window width x p = false.
Proof.
  intros Hw. apply Qlt_bool_false.
  apply (Qle_trans _ 0); [exact Hw | apply Qabs_nonneg].
Qed.

Section Scan.
Variables (width x : Q).

Lemma scan_step_fst (lo up : float) (p : Q * Q) :
  fst (scan_step width x (lo, up) p) =
  if in_window width x p && float_ltb (Fin (snd p)) lo then Fin (snd p) else lo.
Proof.
  unfold scan_step. cbn [fst snd].
  destruct (in_window width x p); [|reflexivity].
  destruct (float_ltb (Fin p.2) lo); [reflexivity|].
  destruct (float_ltb up (Fin p.2)); reflexivity.
Qed.

(** The running minimum never rises and the running maximum never falls. *)
Lemma scan_step_widens (acc : float * float) (p : Q * Q) :
  float_le (fst (scan_step width x acc p)) (fst acc) /\
  float_le (snd acc) (snd (scan_step width x acc p)).
Proof.
  unfold scan_step.
  destruct (in_window width x p); [|split; apply float_le_refl].
  destruct (float_ltb (Fin p.2) acc.1) eqn:E1; cbn [fst snd].
  - split; [apply float_ltb_le, E1 | apply float_le_refl].
  - destruct (float_ltb acc.2 (Fin p.2)) eqn:E2; cbn [fst snd].
    + split; [apply float_le_refl | apply float_ltb_le, E2].
    + split; apply float_le_refl.
Qed.

Lemma scan_widens (ps : list (Q * Q)) :
  forall acc : float * float,
    float_le (fst (scan width x ps acc)) (fst acc) /\
    float_le (snd acc) (snd (scan width x ps acc)).
Proof.
  induction ps as [|p ps IH]; intros acc; cbn [scan fold_left].
  - split; apply float_le_refl.
  - destruct (IH (scan_step width x acc p)) as [H1 H2].
    destruct (scan_step_widens acc p) as [H3 H4].
    split; eapply float_le_trans; eassumption.
Qed.

(** The first component is below every sample of the window ... *)
Lemma scan_fst_below (ps : list (Q * Q)) :
  forall (acc : float * float) (p : Q * Q),
    p ∈ ps -> in_window width x p = true ->
    float_le (fst (scan width x ps acc)) (Fin (snd p)).
Proof.
  induction ps as [|q ps IH]; intros acc p Hin Hw.
  - inversion Hin.
  - cbn [scan fold_left]. apply elem_of_cons in Hin as [->|Hin].
    + eapply float_le_trans; [apply scan_widens|].
      destruct acc as [lo up]. rewrite scan_step_fst, Hw. cbn [andb].
      destruct (float_ltb (Fin q.2) lo) eqn:E.
      * apply float_le_refl.
      * apply float_ltb_false_le, E.
    + apply IH; assumption.
Qed.

(** ... and it is the initial value or one of those samples. *)
Lemma scan_fst_attained (ps : list (Q * Q)) :
  forall acc : float * float,
    fst (scan width x ps acc) = fst acc \/
    exists (j : nat) (p : Q * Q),
      ps !! j = Some p /\ in_window width x p = true /\
      fst (scan width x ps acc) = Fin (snd p).
Proof.
  induction ps as [|q ps IH]; intros acc; cbn [scan fold_left].
  - left. reflexivity.
  - destruct (IH (scan_step width x acc q)) as [H|(j & p & Hj & Hw & H)].
    + fold (scan width x ps (scan_step width x acc q)). rewrite H.
      destruct acc as [lo up]. rewrite scan_step_fst.
      destruct (in_window width x q) eqn:Hw; cbn [andb]; [|left; reflexivity].
      destruct (float_ltb (Fin q.2) lo); [|left; reflexivity].
      right. exists 0%nat, q. auto.
    + right. exists (S j), p. auto.
Qed.

(** An empty window leaves both components alone. *)
Lemma scan_empty_window (ps : list (Q * Q)) (acc : float * float) :
  (forall p, p ∈ ps -> in_window width x p = false) ->
  scan width x ps acc = acc.
Proof.
  revert acc. induction ps as [|q ps IH]; intros acc H; [reflexivity|].
  cbn [scan fold_left]. unfold scan_step at 2.
  rewrite (H q) by apply list_elem_of_here.
  apply IH. intros p Hp. apply H. apply list_elem_of_further, Hp.
Qed.
End Scan.

(** Widening the window widens the scanned pair, from any two starting
    pairs ordered that way. *)
Lemma scan_step_wider (w1 w2 x : Q) (p : Q * Q) (a1 a2 : float * float) :
  w1 <= w2 ->
  float_le (fst a2) (fst a1) -> float_le (snd a1) (snd a2) ->
  float_le (fst (scan_step w2 x a2 p)) (fst (scan_step w1 x a1 p)) /\
  float_le (snd (scan_step w1 x a1 p)) (snd (scan_step w2 x a2 p)).
Proof.
  intros Hw Hlo Hup.
  destruct (in_window w1 x p) eqn:E1.
  - destruct a1 as [lo1 up1], a2 as [lo2 up2]. cbn [fst snd] in Hlo, Hup.
    unfold scan_step. rewrite E1, (in_window_wider w1 w2 x p Hw E1).
    cbn [fst snd].
    destruct (float_ltb (Fin p.2) lo2) eqn:L2.
    + rewrite (float_ltb_le_trans _ _ _ L2 Hlo). cbn [fst snd].
      split; [apply float_le_refl | exact Hup].
    + destruct (float_ltb (Fin p.2) lo1) eqn:L1.
      * destruct (float_ltb up2 (Fin p.2)) eqn:U2; cbn [fst snd];
          (split; [apply float_ltb_false_le, L2|]);
          [ apply (float_le_trans _ up2); [exact Hup | apply float_ltb_le, U2]
          | exact Hup ].
      * destruct (float_ltb up1 (Fin p.2)) eqn:U1,
                 (float_ltb up2 (Fin p.2)) eqn:U2; cbn [fst snd];
          (split; [exact Hlo|]).
        -- apply float_le_refl.
        -- apply float_ltb_false_le, U2.
        -- apply (float_le_trans _ up2); [exact Hup | apply float_ltb_le, U2].
        -- exact Hup.
  - destruct (scan_step_widens w2 x a2 p) as [Hd Hu].
    unfold scan_step at 2 3. rewrite E1.
    split.
    + apply (float_le_trans _ a2.1); assumption.
    + apply (float_le_trans _ a2.2); assumption.
Qed.

Lemma scan_wider (w1 w2 x : Q) (ps : list (Q * Q)) :
  w1 <= w2 ->
  forall a1 a2 : float * float,
    float_le (fst a2) (fst a1) -> float_le (snd a1) (snd a2) ->
    float_le (fst (scan w2 x ps a2)) (fst (scan w1 x ps a1)) /\
    float_le (snd (scan w1 x ps a1)) (snd (scan w2 x ps a2)).
Proof.
  intros Hw. induction ps as [|p ps IH]; intros a1 a2 Hlo Hup.
  - split; assumption.
  - cbn [scan fold_left].
    destruct (scan_step_wider w1 w2 x p a1 a2 Hw Hlo Hup) as [H1 H2].
    apply IH; assumption.
Qed.

(** ** Consequences of the closed form *)

(** With at most as many x as y the loop cannot raise. *)
Lemma plot_band_envelope_short_x (x_data y_data : list Q) (width : Q) :
  (length x_data <= length y_data)%nat ->
  plot_band_envelope x_data y_data width =
  Ok (Bounds
        (map (fun x => fst (row_bounds width (zip x_data y_data) x)) x_data
           ++ replicate (length y_data - length x_data) PosInf)
        (map (fun x => snd (row_bounds width (zip x_data y_data) x)) x_data
           ++ replicate (length y_data - length x_data) NegInf)).
Proof.
  intros Hle. rewrite plot_band_envelope_eq.
  rewrite drop_ge, take_ge by assumption. reflexivity.
Qed.

(** On a sample series (as many x as y) entry [i] of each array is the
    scan of row [i]. *)
Lemma plot_band_envelope_series (x_data y_data : list Q) (width : Q) :
  length x_data = length y_data ->
  plot_band_envelope x_data y_data width =
  Ok (Bounds
        (map (fun x => fst (row_bounds width (zip x_data y_data) x)) x_data)
        (map (fun x => snd (row_bounds width (zip x_data y_data) x)) x_data)).
Proof.
  intros Hlen. rewrite plot_band_envelope_short_x by lia.
  rewrite Hlen, Nat.sub_diag. cbn [replicate]. rewrite !app_nil_r. reflexivity.
Qed.

(** When no row has a sample in its window the arrays stay as created. *)
Lemma plot_band_envelope_untouched (x_data y_data : list Q) (width : Q) :
  (forall x p, in_window width x p = false) ->
  plot_band_envelope x_data y_data width = Ok (initial_bounds y_data).
Proof.
  intros Hno. rewrite plot_band_envelope_eq.
  assert (Hrt : forall ps x, row_touches width ps x = false).
  { intros ps x. unfold row_touches.
    induction ps as [|p ps IHp]; [reflexivity|].
    cbn [existsb]. rewrite Hno, IHp. reflexivity. }
  assert (Hex : forall xs,
             existsb (row_touches width (zip x_data y_data)) xs = false).
  { induction xs as [|x xs IH]; [reflexivity|]. cbn [existsb].
    rewrite IH, Hrt. reflexivity. }
  rewrite Hex. unfold initial_bounds. f_equal.
  assert (Hrow : forall x, row_bounds width (zip x_data y_data) x = (PosInf, NegInf)).
  { intros x. apply scan_empty_window. intros p _. apply Hno. }
  assert (Hmap : forall (c : float) (g : Q -> float) (xs : list Q),
             (forall x, g x = c) -> map g xs = replicate (length xs) c).
  { intros c g xs Hg. induction xs as [|x xs IH]; [reflexivity|].
    cbn. rewrite Hg, IH. reflexivity. }
  rewrite (Hmap PosInf), (Hmap NegInf) by (intros x; rewrite Hrow; reflexivity).
  rewrite <- !replicate_add, length_take.
  replace (length y_data `min` length x_data + (length y_data - length x_data))%nat
    with (length y_data) by lia.
  reflexivity.
Qed.

Lemma Forall2_map_same {A B : Type} (R : B -> B -> Prop) (f g : A -> B) (l : list A) :
  (forall a, R (f a) (g a)) -> Forall2 R (map f l) (map g l).
Proof.
  intros H. induction l as [|a l IH]; cbn; constructor; auto.
Qed.

(** * Properties of the envelope *)

(** C1. On x = [0, 1, 2, 3], y = [5, 1, 9, 3], width = 1.5 the loop
    returns lower = [1, 1, 1, 3] as expected, but upper = [-inf, 9, 9, -inf]
    and not [5, 9, 9, 9]: at indices 0 and 3 every sample of the window is a
    new minimum when it is scanned, so the [elif] branch is never reached. *)
Theorem plot_band_concrete_case :
  plot_band_envelope [0; 1; 2; 3] [5; 1; 9; 3] (3 # 2) =
    Ok (Bounds [Fin 1; Fin 1; Fin 1; Fin 3] [NegInf; Fin 9; Fin 9; NegInf])
  /\ [NegInf; Fin 9; Fin 9; NegInf] <> [Fin 5; Fin 9; Fin 9; Fin 9].
Proof.
  split; [vm_compute; reflexivity | discriminate].
Qed.

(** C2. On the single sample x = [0], y = [5] with width = 1 index 0 has
    a neighbour (itself), yet the loop returns lower[0] = 5 and
    upper[0] = -inf, so lower[0] <= upper[0] fails. *)
Theorem lower_above_upper_single_sample :
  plot_band_envelope [0] [5] 1 = Ok (Bounds [Fin 5] [NegInf])
  /\ in_window 1 0 (0, 5) = true
  /\ ~ float_le (Fin 5) NegInf.
Proof.
  split; [vm_compute; reflexivity|].
  split; [vm_compute; reflexivity|].
  intros H. exact H.
Qed.

(** C4, as stated, fails: the loop has no shape or parameter check.  With
    three x and four y it returns both arrays, and with width = -1 it
    returns the arrays as created. *)
Lemma no_shape_or_width_check :
  plot_band_envelope [0; 1; 2] [5; 1; 9; 3] (3 # 2) =
    Ok (Bounds [Fin 1; Fin 1; Fin 1; PosInf] [NegInf; Fin 9; Fin 9; NegInf])
  /\ plot_band_envelope [0] [5] (-1) = Ok (Bounds [PosInf] [NegInf]).
Proof.
  split; vm_compute; reflexivity.
Qed.

(** C4, amended.  With fewer x than y, or with a negative width, the loop
    completes without an exception and returns two arrays of len(y) entries;
    with a negative width they are the arrays as created. *)
Theorem envelope_validates_nothing (x_data y_data : list Q) (width : Q) :
  (length x_data < length y_data)%nat \/ width < 0 ->
  exists b : bounds,
    plot_band_envelope x_data y_data width = Ok b /\
    length (lower_y b) = length y_data /\
    length (upper_y b) = length y_data /\
    (width < 0 -> b = initial_bounds y_data).
Proof.
  intros H.
  assert (Hneg : width < 0 ->
                 plot_band_envelope x_data y_data width = Ok (initial_bounds y_data)).
  { intros Hw. apply plot_band_envelope_untouched.
    intros x p. apply in_window_nonpositive, Qlt_le_weak, Hw. }
  destruct (Qlt_le_dec width 0) as [Hw|Hw].
  - exists (initial_bounds y_data).
    split; [apply Hneg, Hw|].
    cbn [initial_bounds lower_y upper_y]. rewrite !length_replicate. auto.
  - destruct H as [Hlen|Hw']; [|exfalso; apply (Qlt_not_le _ _ Hw' Hw)].
    rewrite plot_band_envelope_short_x by lia.
    eexists. split; [reflexivity|].
    cbn [lower_y upper_y].
    rewrite !length_app, !length_map, !length_replicate.
    split; [lia|]. split; [lia|].
    intros Hw'. exfalso. apply (Qlt_not_le _ _ Hw' Hw).
Qed.

Lemma envelope_validates_nothing_witness :
  exists b : bounds,
    plot_band_envelope [0; 1; 2] [5; 1; 9; 3] (3 # 2) = Ok b /\
    length (lower_y b) = length [5; 1; 9; 3] /\
    length (upper_y b) = length [5; 1; 9; 3] /\
    (3 # 2 < 0 -> b = initial_bounds [5; 1; 9; 3]).
Proof.
  apply (envelope_validates_nothing [0; 1; 2] [5; 1; 9; 3] (3 # 2)).
  left. cbn. lia.
Defined.

(** A single sample with a positive width: the sample is its own
    neighbour, becomes the minimum, and is never tried as the maximum. *)
Lemma single_sample_positive_width (x0 y0 width : Q) :
  0 < width ->
  plot_band_envelope [x0] [y0] width = Ok (Bounds [Fin y0] [NegInf]).
Proof.
  intros Hw. rewrite plot_band_envelope_series by reflexivity.
  cbn [map zip zip_with]. unfold row_bounds. cbn [scan fold_left].
  unfold scan_step.
  assert (Hin : in_window width x0 (x0, y0) = true).
  { apply in_window_iff. cbn [fst].
    apply Qabs_case; intros _; lra. }
  rewrite Hin. reflexivity.
Qed.

(** C5. On the single sample x = [0], y = [5]: with width = 1 the loop
    returns lower[0] = 5 = y[0] but upper[0] = -inf, not y[0]; with
    width = 0 both entries keep their initial values, as claimed. *)
Theorem single_sample_case :
  plot_band_envelope [0] [5] 1 = Ok (Bounds [Fin 5] [NegInf])
  /\ plot_band_envelope [0] [5] 0 = Ok (Bounds [PosInf] [NegInf]).
Proof.
  split.
  - apply single_sample_positive_width. reflexivity.
  - apply (plot_band_envelope_untouched [0] [5] 0).
    intros x p. apply in_window_nonpositive, Qle_refl.
Qed.

(** C7. On a sample series, a larger width gives an envelope at least as
    wide at every index: the loop returns for both widths, each lower bound
    for the larger width is at most the one for the smaller width, and each
    upper bound is at least it.  (This holds for any width1 < width2, also
    negative ones.) *)
Theorem wider_tolerance_wider_envelope (x_data y_data : list Q) (width1 width2 : Q) :
  length x_data = length y_data ->
  width1 < width2 ->
  exists b1 b2 : bounds,
    plot_band_envelope x_data y_data width1 = Ok b1 /\
    plot_band_envelope x_data y_data width2 = Ok b2 /\
    Forall2 float_le (lower_y b2) (lower_y b1) /\
    Forall2 float_le (upper_y b1) (upper_y b2).
Proof.
  intros Hlen Hw.
  rewrite !plot_band_envelope_series by assumption.
  do 2 eexists. split; [reflexivity|]. split; [reflexivity|].
  cbn [lower_y upper_y].
  assert (Hrow : forall x,
             float_le (fst (row_bounds width2 (zip x_data y_data) x))
                      (fst (row_bounds width1 (zip x_data y_data) x)) /\
             float_le (snd (row_bounds width1 (zip x_data y_data) x))
                      (snd (row_bounds width2 (zip x_data y_data) x))).
  { intros x. apply scan_wider; [apply Qlt_le_weak, Hw | exact I | exact I]. }
  split; apply Forall2_map_same; intros x; apply Hrow.
Qed.

Lemma wider_tolerance_wider_envelope_witness :
  exists b1 b2 : bounds,
    plot_band_envelope [0; 1; 2; 3] [5; 1; 9; 3] (1 # 2) = Ok b1 /\
    plot_band_envelope [0; 1; 2; 3] [5; 1; 9; 3] (3 # 2) = Ok b2 /\
    Forall2 float_le (lower_y b2) (lower_y b1) /\
    Forall2 float_le (upper_y b1) (upper_y b2).
Proof.
  apply (wider_tolerance_wider_envelope [0; 1; 2; 3] [5; 1; 9; 3] (1 # 2) (3 # 2)).
  - reflexivity.
  - reflexivity.
Defined.

(** C8. With width = 0 no pair passes the strict test, whatever x[i] and
    x[j] are (in particular for j = i), and the loop completes with both
    arrays as created: every lower bound +inf, every upper bound -inf. *)
Theorem zero_width_no_neighbours (x_data y_data : list Q) :
  (forall (xi : Q) (p : Q * Q), in_window 0 xi p = false) /\
  plot_band_envelope x_data y_data 0 =
    Ok (Bounds (replicate (length y_data) PosInf) (replicate (length y_data) NegInf)).
Proof.
  assert (Hno : forall (xi : Q) (p : Q * Q), in_window 0 xi p = false).
  { intros xi p. apply in_window_nonpositive, Qle_refl. }
  split; [exact Hno|].
  apply (plot_band_envelope_untouched x_data y_data 0 Hno).
Qed.

(** C6. The upper bound depends on the order of the samples.  On
    x = [0, 1], y = [5, 1], width = 1.5 the loop returns upper = [-inf, -inf];
    on the same series with its two samples swapped it returns
    upper = [5, 5], which is not the swap of [-inf, -inf]. *)
Theorem upper_depends_on_order :
  plot_band_envelope [0; 1] [5; 1] (3 # 2) =
    Ok (Bounds [Fin 1; Fin 1] [NegInf; NegInf])
  /\ plot_band_envelope (apply_perm [1; 0]%nat [0; 1])
                        (apply_perm [1; 0]%nat [5; 1]) (3 # 2) =
    Ok (Bounds [Fin 1; Fin 1] [Fin 5; Fin 5])
  /\ apply_perm [1; 0]%nat [NegInf; NegInf] <> [Fin 5; Fin 5].
Proof.
  split; [vm_compute; reflexivity|].
  split; [vm_compute; reflexivity|].
  cbn. discriminate.
Qed.

(** C9, as stated, fails: for x = [0], y = [5], width = 0 index 0 has no
    neighbour and the fill request carries +inf and -inf. *)
Lemma fill_request_carries_sentinels :
  plot_band [0] [5] 0 {| colour := "red"; label := "band" |} =
  Ok [ fill_between [0] [PosInf] [NegInf] "red" (7 # 10);
       plot (-1) (-1) "s" "red" "band" (7 # 10) 15 ].
Proof. vm_compute. reflexivity. Qed.

(** C9, amended.  On a sample series [plot_band] hands the two arrays of
    the envelope loop to [fill_between] as they are: at an index without
    neighbour the request carries +inf as lower and -inf as upper bound. *)
Theorem fill_request_is_raw_envelope
    (x_data y_data : list Q) (width : Q) (scheme : Scheme) (i : nat) (xi : Q) :
  length x_data = length y_data ->
  x_data !! i = Some xi ->
  (forall (j : nat) (xj : Q), x_data !! j = Some xj -> ~ Qabs (xi - xj) < width) ->
  exists b : bounds,
    plot_band_envelope x_data y_data width = Ok b /\
    plot_band x_data y_data width scheme =
      Ok [ fill_between x_data (lower_y b) (upper_y b) (colour scheme) (7 # 10);
           plot (-1) (-1) "s" (colour scheme) (label scheme) (7 # 10) 15 ] /\
    lower_y b !! i = Some PosInf /\
    upper_y b !! i = Some NegInf.
Proof.
  intros Hlen Hi Hnone. unfold plot_band.
  rewrite plot_band_envelope_series by assumption.
  eexists. split; [reflexivity|]. split; [reflexivity|].
  assert (Hrow : row_bounds width (zip x_data y_data) xi = (PosInf, NegInf)).
  { apply scan_empty_window. intros p Hp.
    apply list_elem_of_lookup_1 in Hp as [j Hj].
    apply lookup_zip_with_Some in Hj as (xj & yj & -> & Hxj & _).
    destruct (in_window width xi (xj, yj)) eqn:E; [|reflexivity].
    apply in_window_iff in E. destruct (Hnone j xj Hxj E). }
  cbn [lower_y upper_y]. rewrite !list_lookup_fmap, Hi. cbn.
  rewrite Hrow. split; reflexivity.
Qed.

Lemma fill_request_is_raw_envelope_witness :
  exists b : bounds,
    plot_band_envelope [0; 2] [5; 1] 0 = Ok b /\
    plot_band [0; 2] [5; 1] 0 {| colour := "red"; label := "band" |} =
      Ok [ fill_between [0; 2] (lower_y b) (upper_y b) "red" (7 # 10);
           plot (-1) (-1) "s" "red" "band" (7 # 10) 15 ] /\
    lower_y b !! 1%nat = Some PosInf /\
    upper_y b !! 1%nat = Some NegInf.
Proof.
  apply (fill_request_is_raw_envelope [0; 2] [5; 1] 0
           {| colour := "red"; label := "band" |} 1 2).
  - reflexivity.
  - reflexivity.
  - intros j xj _. apply Qle_not_lt, Qabs_nonneg.
Defined.


(** * Further properties of the envelope loop *)

Section ScanMore.
Variables (width x : Q).

(** Once the maximum has been set it is at or above the minimum. *)
Lemma scan_step_ordered (acc : float * float) (p : Q * Q) :
  snd acc = NegInf \/ float_le (fst acc) (snd acc) ->
  snd (scan_step width x acc p) = NegInf \/
  float_le (fst (scan_step width x acc p)) (snd (scan_step width x acc p)).
Proof.
  intros H. unfold scan_step.
  destruct (in_window width x p); [|exact H].
  destruct (float_ltb (Fin p.2) acc.1) eqn:L; cbn [fst snd].
  - destruct H as [H|H]; [left; exact H|right].
    apply (float_le_trans _ acc.1); [apply float_ltb_le, L | exact H].
  - destruct (float_ltb acc.2 (Fin p.2)); cbn [fst snd]; [|exact H].
    right. apply float_ltb_false_le, L.
Qed.

Lemma scan_ordered (ps : list (Q * Q)) :
  forall acc : float * float,
    snd acc = NegInf \/ float_le (fst acc) (snd acc) ->
    snd (scan width x ps acc) = NegInf \/
    float_le (fst (scan width x ps acc)) (snd (scan width x ps acc)).
Proof.
  induction ps as [|p ps IH]; intros acc H; [exact H|].
  cbn [scan fold_left]. apply IH, scan_step_ordered, H.
Qed.

End ScanMore.

(** The scan depends on [x] only through the window test. *)
Lemma scan_ext (width x x' : Q) (ps : list (Q * Q)) :
  (forall p, p ∈ ps -> in_window width x p = in_window width x' p) ->
  forall acc, scan width x ps acc = scan width x' ps acc.
Proof.
  induction ps as [|q ps IH]; intros H acc; [reflexivity|].
  cbn [scan fold_left].
  assert (Hq : scan_step width x acc q = scan_step width x' acc q).
  { unfold scan_step. rewrite (H q) by apply list_elem_of_here. reflexivity. }
  rewrite Hq. apply IH. intros p Hp. apply H, list_elem_of_further, Hp.
Qed.

(** Every pair of entries the loop returns is the scan of a row, or the
    pair of initial values. *)
Lemma plot_band_envelope_entry (x_data y_data : list Q) (width : Q) (b : bounds)
    (i : nat) (l u : float) :
  plot_band_envelope x_data y_data width = Ok b ->
  lower_y b !! i = Some l ->
  upper_y b !! i = Some u ->
  (exists xi, x_data !! i = Some xi /\
              l = fst (row_bounds width (zip x_data y_data) xi) /\
              u = snd (row_bounds width (zip x_data y_data) xi))
  \/ (l = PosInf /\ u = NegInf).
Proof.
  rewrite plot_band_envelope_eq.
  destruct (existsb _ _); [discriminate|].
  intros [= <-]. cbn [lower_y upper_y]. intros Hl Hu.
  destruct (take (length y_data) x_data !! i) as [xi|] eqn:Hi.
  - left. exists xi.
    pose proof (lookup_lt_Some _ _ _ Hi) as Hlt.
    rewrite lookup_app_l in Hl by (rewrite length_map; exact Hlt).
    rewrite lookup_app_l in Hu by (rewrite length_map; exact Hlt).
    rewrite list_lookup_fmap, Hi in Hl. rewrite list_lookup_fmap, Hi in Hu.
    cbn in Hl, Hu. injection Hl as <-. injection Hu as <-.
    apply lookup_take_Some in Hi as [Hi _]. auto.
  - right. apply lookup_ge_None in Hi.
    rewrite lookup_app_r in Hl by (rewrite length_map; exact Hi).
    rewrite lookup_app_r in Hu by (rewrite length_map; exact Hi).
    apply lookup_replicate in Hl as [-> _].
    apply lookup_replicate in Hu as [-> _]. auto.
Qed.

(** X1. Whenever the loop returns, both arrays have len(y_data) entries,
    whatever the length of x_data and the width. *)
Theorem envelope_output_lengths (x_data y_data : list Q) (width : Q) (b : bounds) :
  plot_band_envelope x_data y_data width = Ok b ->
  length (lower_y b) = length y_data /\ length (upper_y b) = length y_data.
Proof.
  rewrite plot_band_envelope_eq.
  destruct (existsb _ _); [discriminate|].
  intros [= <-]. cbn [lower_y upper_y].
  rewrite !length_app, !length_map, !length_replicate, length_take. lia.
Qed.

Lemma envelope_output_lengths_witness :
  length (lower_y (Bounds [Fin 1; Fin 1; Fin 1; PosInf] [NegInf; Fin 9; Fin 9; NegInf]))
    = length [5; 1; 9; 3] /\
  length (upper_y (Bounds [Fin 1; Fin 1; Fin 1; PosInf] [NegInf; Fin 9; Fin 9; NegInf]))
    = length [5; 1; 9; 3].
Proof.
  apply (envelope_output_lengths [0; 1; 2] [5; 1; 9; 3] (3 # 2)).
  vm_compute. reflexivity.
Defined.

(** X3. Wherever the loop has set the upper bound (it is not -inf), the
    lower bound is at or below it. *)
Theorem upper_set_implies_ordered (x_data y_data : list Q) (width : Q) (b : bounds)
    (i : nat) (l u : float) :
  plot_band_envelope x_data y_data width = Ok b ->
  lower_y b !! i = Some l ->
  upper_y b !! i = Some u ->
  u <> NegInf ->
  float_le l u.
Proof.
  intros Hb Hl Hu Hne.
  destruct (plot_band_envelope_entry _ _ _ _ _ _ _ Hb Hl Hu)
    as [(xi & _ & -> & ->)|[_ ->]]; [|congruence].
  unfold row_bounds in *.
  destruct (scan_ordered width xi (zip x_data y_data) (PosInf, NegInf)) as [H|H].
  - left. reflexivity.
  - congruence.
  - exact H.
Qed.

Lemma upper_set_implies_ordered_witness : float_le (Fin 1) (Fin 9).
Proof.
  apply (upper_set_implies_ordered [0; 1; 2; 3] [5; 1; 9; 3] (3 # 2)
           (Bounds [Fin 1; Fin 1; Fin 1; Fin 3] [NegInf; Fin 9; Fin 9; NegInf]) 1).
  - vm_compute. reflexivity.
  - reflexivity.
  - reflexivity.
  - discriminate.
Defined.

(** The minimum found by a scan does not depend on the order of the
    samples (as a value; which of several equal samples is kept does). *)
Lemma scan_fst_perm (width x : Q) (ps ps' : list (Q * Q)) (acc : float * float) :
  ps ≡ₚ ps' ->
  float_le (fst (scan width x ps acc)) (fst (scan width x ps' acc)).
Proof.
  intros Hperm.
  destruct (scan_fst_attained width x ps' acc) as [H|(j & p & Hj & Hw & H)];
    rewrite H.
  - apply scan_widens.
  - apply scan_fst_below; [|exact Hw].
    rewrite Hperm. eapply list_elem_of_lookup_2, Hj.
Qed.

(** X5. The lower bound does not depend on the order of the samples: if
    two sample series hold the same (x, y) pairs in different orders, the
    lower bounds they get at an index holding the same x are equal as
    numbers (each is at or below the other). *)
Theorem lower_order_independent (x_data y_data x_data' y_data' : list Q) (width : Q)
    (i k : nat) (xi : Q) :
  length x_data = length y_data ->
  length x_data' = length y_data' ->
  zip x_data' y_data' ≡ₚ zip x_data y_data ->
  x_data !! i = Some xi ->
  x_data' !! k = Some xi ->
  exists (b b' : bounds) (l l' : float),
    plot_band_envelope x_data y_data width = Ok b /\
    plot_band_envelope x_data' y_data' width = Ok b' /\
    lower_y b !! i = Some l /\
    lower_y b' !! k = Some l' /\
    float_le l l' /\ float_le l' l.
Proof.
  intros Hlen Hlen' Hperm Hi Hk.
  rewrite !plot_band_envelope_series by assumption.
  do 4 eexists. split; [reflexivity|]. split; [reflexivity|].
  cbn [lower_y]. rewrite !list_lookup_fmap, Hi, Hk.
  split; [reflexivity|]. split; [reflexivity|].
  unfold row_bounds. split; apply scan_fst_perm; [symmetry|]; exact Hperm.
Qed.

Lemma lower_order_independent_witness :
  exists (b b' : bounds) (l l' : float),
    plot_band_envelope [0; 1] [5; 1] (3 # 2) = Ok b /\
    plot_band_envelope [1; 0] [1; 5] (3 # 2) = Ok b' /\
    lower_y b !! 0%nat = Some l /\
    lower_y b' !! 1%nat = Some l' /\
    float_le l l' /\ float_le l' l.
Proof.
  apply (lower_order_independent [0; 1] [5; 1] [1; 0] [1; 5] (3 # 2) 0 1 0);
    try reflexivity.
  cbn. apply perm_swap.
Defined.

Lemma in_window_Qeq (width x x' : Q) (p : Q * Q) :
  x == x' -> in_window width x p = in_window width x' p.
Proof.
  intros Heq. unfold in_window, Qlt_bool. f_equal.
  apply Qleb_comp; [reflexivity|]. rewrite Heq. reflexivity.
Qed.

(** X8. On a sample series, two indices holding the same x get the same
    lower and the same upper bound. *)
Theorem equal_x_equal_bounds (x_data y_data : list Q) (width : Q)
    (i j : nat) (xi xj : Q) :
  length x_data = length y_data ->
  x_data !! i = Some xi ->
  x_data !! j = Some xj ->
  xi == xj ->
  exists b : bounds,
    plot_band_envelope x_data y_data width = Ok b /\
    lower_y b !! i = lower_y b !! j /\
    upper_y b !! i = upper_y b !! j /\
    is_Some (lower_y b !! i) /\ is_Some (upper_y b !! i).
Proof.
  intros Hlen Hi Hj Heq.
  rewrite plot_band_envelope_series by assumption.
  eexists. split; [reflexivity|]. cbn [lower_y upper_y].
  rewrite !list_lookup_fmap, Hi, Hj. cbn.
  unfold row_bounds.
  rewrite (scan_ext width xi xj) by (intros p _; apply in_window_Qeq, Heq).
  repeat split; eauto.
Qed.

Lemma equal_x_equal_bounds_witness :
  exists b : bounds,
    plot_band_envelope [0; 1; 0] [5; 1; 9] 1 = Ok b /\
    lower_y b !! 0%nat = lower_y b !! 2%nat /\
    upper_y b !! 0%nat = upper_y b !! 2%nat /\
    is_Some (lower_y b !! 0%nat) /\ is_Some (upper_y b !! 0%nat).
Proof.
  apply (equal_x_equal_bounds [0; 1; 0] [5; 1; 9] 1 0 2 0 0); reflexivity.
Defined.

(** * [plot_limits] *)

(** X10. Given a list, [plot_limits] raises IndexError exactly when the
    list has fewer than four entries; with four or more it sets the x limits
    to the first two entries and the y limits to the next two, and ignores
    the rest. *)
Theorem plot_limits_needs_four (limits : list Q) :
  (outcome (plot_limits (Some limits)) = Raise IndexError <-> (length limits < 4)%nat) /\
  ((4 <= length limits)%nat ->
   exists xmin xmax ymin ymax : Q,
     take 4 limits = [xmin; xmax; ymin; ymax] /\
     plot_limits (Some limits) = Run [set_xlim xmin xmax; set_ylim ymin ymax] (Ok tt)).
Proof.
  destruct limits as [|a [|b [|c [|d rest]]]]; cbn; split;
    try (split; [intros _; lia | reflexivity]);
    try (intros H; exfalso; lia).
  - split; [discriminate | lia].
  - intros _. exists a, b, c, d. split; reflexivity.
Qed.

(** X11. The x limits are set before the y limits are read: given a list
    of two or three entries, [plot_limits] has already set the x limits to
    them when it raises IndexError; given a shorter list it raises before
    any request. *)
Theorem plot_limits_partial_effect (limits : list Q) :
  (length limits < 4)%nat ->
  outcome (plot_limits (Some limits)) = Raise IndexError /\
  ((length limits < 2)%nat -> requests (plot_limits (Some limits)) = []) /\
  ((2 <= length limits)%nat ->
   exists xmin xmax : Q,
     take 2 limits = [xmin; xmax] /\
     requests (plot_limits (Some limits)) = [set_xlim xmin xmax]).
Proof.
  intros Hlen.
  destruct limits as [|a [|b [|c [|d rest]]]]; cbn in Hlen |- *; try lia;
    (split; [reflexivity|]); split; intros H; try lia; try reflexivity.
  - exists a, b. split; reflexivity.
  - exists a, b. split; reflexivity.
Qed.

Lemma plot_limits_partial_effect_witness :
  outcome (plot_limits (Some [0; 1; 2])) = Raise IndexError /\
  ((length [0; 1; 2] < 2)%nat -> requests (plot_limits (Some [0; 1; 2])) = []) /\
  ((2 <= length [0; 1; 2])%nat ->
   exists xmin xmax : Q,
     take 2 [0; 1; 2] = [xmin; xmax] /\
     requests (plot_limits (Some [0; 1; 2])) = [set_xlim xmin xmax]).
Proof.
  apply (plot_limits_partial_effect [0; 1; 2]). cbn. lia.
Defined.

(** * [plot_filled_contour] *)

Lemma Qle_total : Total Qle.
Proof.
  intros x y. destruct (Qlt_le_dec x y) as [H|H]; [left; apply Qlt_le_weak, H | right; exact H].
Qed.

Lemma Qle_transitive : Transitive Qle.
Proof. intros x y z. apply Qle_trans. Qed.

Section FilledContourFacts.
Context {ndarray : Type}.
Variables (T : ndarray -> ndarray) (max : ndarray -> option Q).

(** X12. When the data has a largest entry, the levels handed to
    [contourf] are the given levels in ascending order followed by that
    entry: one more than were given. *)
Theorem contourf_levels_sorted_then_max (data : ndarray) (levels : list Q)
    (scheme : ContourScheme) (bin_limits : BinLimits) (top : Q) :
  max data = Some top ->
  exists (sorted : list Q) (proxies : list FilledContour.request),
    FilledContour.plot_filled_contour T max data levels scheme bin_limits =
      Some (FilledContour.contourf (T data) (sorted ++ [top]) (colours scheme)
              [fst (fst bin_limits); snd (fst bin_limits);
               fst (snd bin_limits); snd (snd bin_limits)] (7 # 10)
            :: proxies) /\
    StronglySorted Qle sorted /\
    sorted ≡ₚ levels.
Proof.
  intros Hmax. unfold FilledContour.plot_filled_contour. rewrite Hmax.
  eexists _, _. split; [reflexivity|]. split.
  - apply (@StronglySorted_merge_sort _ Qle _ Qle_transitive Qle_total).
  - apply merge_sort_Permutation.
Qed.

(** X13. The whole list handed to [contourf] is ascending exactly when no
    given level exceeds the largest entry of the data. *)
Theorem contourf_levels_ascending_iff (data : ndarray) (levels : list Q)
    (scheme : ContourScheme) (bin_limits : BinLimits) (top : Q) :
  max data = Some top ->
  exists (d : ndarray) (lv : list Q) (cs : list string) (ext : list Q) (a : Q)
         (proxies : list FilledContour.request),
    FilledContour.plot_filled_contour T max data levels scheme bin_limits =
      Some (FilledContour.contourf d lv cs ext a :: proxies) /\
    (StronglySorted Qle lv <-> Forall (fun l => l <= top) levels).
Proof.
  intros Hmax. unfold FilledContour.plot_filled_contour. rewrite Hmax.
  eexists _, _, _, _, _, _. split; [reflexivity|].
  unfold FilledContour.contour_levels.
  rewrite StronglySorted_app, Forall_forall.
  pose proof (merge_sort_Permutation Qle levels) as Hperm.
  split.
  - intros (Hall & _ & _) l Hl. apply (Hall l top).
    + rewrite Hperm. exact Hl.
    + apply list_elem_of_here.
  - intros Hall. split; [|split].
    + intros x1 x2 H1 H2. apply list_elem_of_singleton in H2 as ->.
      apply Hall. rewrite Hperm in H1. exact H1.
    + apply (@StronglySorted_merge_sort _ Qle _ Qle_transitive Qle_total).
    + repeat constructor.
Qed.
(** X14. Every colour that has a level name gets one legend proxy, in
    order and at the same point; level names beyond the number of colours,
    and colours beyond the number of level names, get none. *)
Theorem legend_proxy_per_named_colour (data : ndarray) (levels : list Q)
    (scheme : ContourScheme) (bin_limits : BinLimits) (top : Q) :
  max data = Some top ->
  exists (c : FilledContour.request) (proxies : list FilledContour.request),
    FilledContour.plot_filled_contour T max data levels scheme bin_limits =
      Some (c :: proxies) /\
    length proxies = (length (level_names scheme) `min` length (colours scheme))%nat /\
    forall (k : nat) (name color : string),
      level_names scheme !! k = Some name ->
      colours scheme !! k = Some color ->
      proxies !! k =
        Some (FilledContour.plot (10 * Qabs (snd (fst bin_limits)))
                (10 * Qabs (snd (snd bin_limits))) "s" color name (7 # 10) 15).
Proof.
  intros Hmax. unfold FilledContour.plot_filled_contour. rewrite Hmax.
  eexists _, _. split; [reflexivity|].
  unfold FilledContour.legend_proxies. split.
  - rewrite length_map, length_zip_with. reflexivity.
  - intros k name color Hn Hc.
    rewrite list_lookup_fmap, lookup_zip_with, Hn, Hc. reflexivity.
Qed.

(** X15. A legend proxy is never below the upper bin limits, and it is
    strictly beyond the upper x limit unless that limit is 0 (and the same
    for y): it lies outside the bin limits unless both upper limits are 0. *)
Theorem legend_proxy_position (data : ndarray) (levels : list Q)
    (scheme : ContourScheme) (bin_limits : BinLimits)
    (reqs : list FilledContour.request)
    (x y : Q) (fmt color lbl : string) (alpha : Q) (ms : Z) :
  FilledContour.plot_filled_contour T max data levels scheme bin_limits = Some reqs ->
  FilledContour.plot x y fmt color lbl alpha ms ∈ reqs ->
  snd (fst bin_limits) <= x /\ snd (snd bin_limits) <= y /\
  (~ snd (fst bin_limits) == 0 -> snd (fst bin_limits) < x) /\
  (~ snd (snd bin_limits) == 0 -> snd (snd bin_limits) < y).
Proof.
  unfold FilledContour.plot_filled_contour.
  destruct (max data) as [top|]; [|discriminate].
  intros [= <-] Hin.
  apply elem_of_cons in Hin as [Hin|Hin]; [discriminate|].
  unfold FilledContour.legend_proxies in Hin.
  apply list_elem_of_fmap in Hin as (nc & Heq & _).
  injection Heq as -> -> _ _ _ _ _.
  cbn [nth].
  destruct bin_limits as [[xmin xmax] [ymin ymax]]. cbn [fst snd].
  assert (Habs : forall v : Q, v <= 10 * Qabs v /\ (~ v == 0 -> v < 10 * Qabs v)).
  { intros v. apply (Qabs_case v (fun a => v <= 10 * a /\ (~ v == 0 -> v < 10 * a)));
      intros Hv; (split; [lra|]); intros Hne;
      (destruct (Qlt_le_dec 0 v) as [Hpos|Hneg]; [lra|]);
      (destruct (Qlt_le_dec v 0) as [Hneg'|Hpos']; [lra|]);
      destruct Hne; lra. }
  destruct (Habs xmax) as [Hx1 Hx2], (Habs ymax) as [Hy1 Hy2]. auto.
Qed.
End FilledContourFacts.

Lemma contourf_levels_sorted_then_max_witness :
  exists (sorted : list Q) (proxies : list FilledContour.request),
    FilledContour.plot_filled_contour rows_T rows_max [[1; 2]; [3; 4]] [3; 1]
      {| colours := ["red"; "blue"]; level_names := ["one"; "two"] |}
      ((0, 1), (0, 2)) =
      Some (FilledContour.contourf (rows_T [[1; 2]; [3; 4]]) (sorted ++ [4])
              ["red"; "blue"] [0; 1; 0; 2] (7 # 10)
            :: proxies) /\
    StronglySorted Qle sorted /\
    sorted ≡ₚ [3; 1].
Proof.
  apply (contourf_levels_sorted_then_max rows_T rows_max [[1; 2]; [3; 4]] [3; 1]
           {| colours := ["red"; "blue"]; level_names := ["one"; "two"] |}
           ((0, 1), (0, 2)) 4).
  reflexivity.
Defined.

Lemma contourf_levels_ascending_iff_witness :
  exists (d : list (list Q)) (lv : list Q) (cs : list string) (ext : list Q) (a : Q)
         (proxies : list FilledContour.request),
    FilledContour.plot_filled_contour rows_T rows_max [[1; 2]; [3; 4]] [3; 1]
      {| colours := ["red"; "blue"]; level_names := ["one"; "two"] |}
      ((0, 1), (0, 2)) =
      Some (FilledContour.contourf d lv cs ext a :: proxies) /\
    (StronglySorted Qle lv <-> Forall (fun l => l <= 4) [3; 1]).
Proof.
  apply (contourf_levels_ascending_iff rows_T rows_max [[1; 2]; [3; 4]] [3; 1]
           {| colours := ["red"; "blue"]; level_names := ["one"; "two"] |}
           ((0, 1), (0, 2)) 4).
  reflexivity.
Defined.

Lemma legend_proxy_per_named_colour_witness :
  exists (c : FilledContour.request) (proxies : list FilledContour.request),
    FilledContour.plot_filled_contour rows_T rows_max [[1; 2]; [3; 4]] [3; 1]
      {| colours := ["red"; "blue"]; level_names := ["one"; "two"; "three"] |}
      ((0, 1), (0, 2)) =
      Some (c :: proxies) /\
    length proxies = (length ["one"; "two"; "three"] `min` length ["red"; "blue"])%nat /\
    forall (k : nat) (name color : string),
      ["one"; "two"; "three"] !! k = Some name ->
      ["red"; "blue"] !! k = Some color ->
      proxies !! k =
        Some (FilledContour.plot (10 * Qabs 1) (10 * Qabs 2) "s" color name (7 # 10) 15).
Proof.
  apply (legend_proxy_per_named_colour rows_T rows_max [[1; 2]; [3; 4]] [3; 1]
           {| colours := ["red"; "blue"]; level_names := ["one"; "two"; "three"] |}
           ((0, 1), (0, 2)) 4).
  reflexivity.
Defined.

Lemma legend_proxy_position_witness :
  1 <= 10 /\ 2 <= 20 /\ (~ 1 == 0 -> 1 < 10) /\ (~ 2 == 0 -> 2 < 20).
Proof.
  apply (legend_proxy_position rows_T rows_max [[1; 2]; [3; 4]] [3; 1]
           {| colours := ["red"]; level_names := ["one"] |}
           ((0, 1), (0, 2))
           [FilledContour.contourf [[1; 3]; [2; 4]] [1; 3; 4] ["red"] [0; 1; 0; 2] (7 # 10);
            FilledContour.plot 10 20 "s" "red" "one" (7 # 10) 15]
           10 20 "s" "red" "one" (7 # 10) 15).
  - vm_compute. reflexivity.
  - apply list_elem_of_further, list_elem_of_here.
Defined.

(** * [plot_band] on float64 arrays *)

(** ** The order of float64 *)

Lemma f64_ltb_key (a b : spec_float) :
  F64.is_nan a = false -> F64.is_nan b = false ->
  (F64.ltb a b = true <-> F64.key_lt (F64.key a) (F64.key b)).
Proof.
  intros Ha Hb. unfold F64.ltb, SFltb, F64.key_lt.
  destruct a as [sa|sa| |sa ma ea], b as [sb|sb| |sb mb eb];
    try discriminate; try destruct sa; try destruct sb; cbn;
    try (split; [discriminate | lia]);
    try (split; [intros _; lia | reflexivity]).
  - change (Pos.compare_cont Eq ma mb) with (Pos.compare ma mb).
    destruct (Z.compare_spec ea eb), (Pos.compare_spec ma mb); cbn;
      (split; [try discriminate; intros _; lia | try reflexivity; lia]).
  - change (Pos.compare_cont Eq ma mb) with (Pos.compare ma mb).
    destruct (Z.compare_spec ea eb), (Pos.compare_spec ma mb); cbn;
      (split; [try discriminate; intros _; lia | try reflexivity; lia]).
Qed.

Lemma f64_leb_key (a b : spec_float) :
  F64.is_nan a = false -> F64.is_nan b = false ->
  (F64.leb a b = true <-> ~ F64.key_lt (F64.key b) (F64.key a)).
Proof.
  intros Ha Hb. unfold F64.leb, SFleb, F64.key_lt.
  destruct a as [sa|sa| |sa ma ea], b as [sb|sb| |sb mb eb];
    try discriminate; try destruct sa; try destruct sb; cbn;
    try (split; [intros _; lia | reflexivity]);
    try (split; [discriminate | lia]).
  - change (Pos.compare_cont Eq ma mb) with (Pos.compare ma mb).
    destruct (Z.compare_spec ea eb), (Pos.compare_spec ma mb); cbn;
      (split; [try discriminate; intros _; lia | try reflexivity; lia]).
  - change (Pos.compare_cont Eq ma mb) with (Pos.compare ma mb).
    destruct (Z.compare_spec ea eb), (Pos.compare_spec ma mb); cbn;
      (split; [try discriminate; intros _; lia | try reflexivity; lia]).
Qed.

(** A comparison that holds has no NaN operand. *)
Lemma f64_ltb_not_nan (a b : spec_float) :
  F64.ltb a b = true -> F64.is_nan a = false /\ F64.is_nan b = false.
Proof.
  unfold F64.ltb, SFltb. destruct a, b; cbn; try discriminate; auto.
Qed.

Lemma f64_leb_not_nan (a b : spec_float) :
  F64.leb a b = true -> F64.is_nan a = false /\ F64.is_nan b = false.
Proof.
  unfold F64.leb, SFleb. destruct a, b; cbn; try discriminate; auto.
Qed.

Ltac f64_keys :=
  repeat match goal with
         | H : F64.ltb ?a ?b = true |- _ =>
             let Hn := fresh "Hn" in
             pose proof (f64_ltb_not_nan a b H) as [? ?];
             apply f64_ltb_key in H; [|assumption|assumption]
         | H : F64.leb ?a ?b = true |- _ =>
             pose proof (f64_leb_not_nan a b H) as [? ?];
             apply f64_leb_key in H; [|assumption|assumption]
         end.

Lemma f64_leb_refl (a : spec_float) : F64.is_nan a = false -> F64.leb a a = true.
Proof.
  intros Ha. apply f64_leb_key; [assumption|assumption|].
  unfold F64.key_lt. lia.
Qed.

Lemma f64_leb_trans (a b c : spec_float) :
  F64.leb a b = true -> F64.leb b c = true -> F64.leb a c = true.
Proof.
  intros H1 H2. f64_keys. apply f64_leb_key; [assumption|assumption|].
  unfold F64.key_lt in *. lia.
Qed.

Lemma f64_ltb_leb (a b : spec_float) : F64.ltb a b = true -> F64.leb a b = true.
Proof.
  intros H. f64_keys. apply f64_leb_key; [assumption|assumption|].
  unfold F64.key_lt in *. lia.
Qed.

Lemma f64_ltb_false_leb (a b : spec_float) :
  F64.is_nan a = false -> F64.is_nan b = false ->
  F64.ltb a b = false -> F64.leb b a = true.
Proof.
  intros Ha Hb H. apply f64_leb_key; [assumption|assumption|].
  intros Hlt. apply (f64_ltb_key a b Ha Hb) in Hlt. congruence.
Qed.

Lemma f64_leb_ltb_false (a b : spec_float) :
  F64.leb a b = true -> F64.ltb b a = false.
Proof.
  intros H. pose proof (f64_leb_not_nan a b H) as [Ha Hb].
  apply (f64_leb_key a b Ha Hb) in H.
  destruct (F64.ltb b a) eqn:E; [|reflexivity].
  apply (f64_ltb_key b a Hb Ha) in E. contradiction.
Qed.

(** Nothing but +inf is at or above +inf, nothing but -inf at or below
    -inf. *)
Lemma f64_ltb_inf_false (a : spec_float) :
  F64.is_nan a = false -> F64.ltb a F64.inf = false -> a = F64.inf.
Proof.
  intros Ha. unfold F64.ltb, SFltb.
  destruct a as [s|[|]| |s m e]; cbn; try discriminate; reflexivity.
Qed.

(** ** The double loop in closed form *)

Section F64Row.
Variables (width : spec_float) (index : nat) (x : spec_float).

(** One pass of the inner loop's body at an index inside the arrays. *)
Lemma f64_band_update_in_range (p : spec_float * spec_float) (lower upper : list spec_float) (lo up : spec_float) :
  lower !! index = Some lo ->
  upper !! index = Some up ->
  F64.band_update width index x (F64.Bounds lower upper) p =
  Ok (F64.Bounds (<[index := fst (F64.scan_step width x (lo, up) p)]> lower)
             (<[index := snd (F64.scan_step width x (lo, up) p)]> upper)).
Proof.
  intros Hlo Hup. unfold F64.band_update, F64.scan_step, F64.getitem, F64.setitem.
  cbn [F64.lower_y F64.upper_y fst snd].
  destruct (F64.in_window width x p).
  - rewrite Hlo. cbn [mbind result_bind].
    destruct (F64.ltb p.2 lo).
    + cbn [mbind result_bind fst snd].
      rewrite (list_insert_id upper) by assumption. reflexivity.
    + rewrite Hup. cbn [mbind result_bind].
      destruct (F64.ltb up p.2); cbn [mbind result_bind fst snd].
      * rewrite (list_insert_id lower) by assumption. reflexivity.
      * rewrite !list_insert_id by assumption. reflexivity.
  - cbn [fst snd]. rewrite !list_insert_id by assumption. reflexivity.
Qed.

(** At an index inside the arrays the inner loop updates that entry of
    each array by [F64.scan], and nothing else. *)
Lemma f64_row_in_range (ps : list (spec_float * spec_float)) :
  forall (lower upper : list spec_float) (lo up : spec_float),
    lower !! index = Some lo ->
    upper !! index = Some up ->
    for_each (F64.band_update width index x) ps (F64.Bounds lower upper) =
    Ok (F64.Bounds (<[index := fst (F64.scan width x ps (lo, up))]> lower)
               (<[index := snd (F64.scan width x ps (lo, up))]> upper)).
Proof.
  induction ps as [|p ps IH]; intros lower upper lo up Hlo Hup.
  - cbn. rewrite !list_insert_id by assumption. reflexivity.
  - pose proof (lookup_lt_Some _ _ _ Hlo) as Hl.
    pose proof (lookup_lt_Some _ _ _ Hup) as Hu.
    cbn [for_each F64.scan fold_left].
    rewrite (f64_band_update_in_range p lower upper lo up Hlo Hup).
    cbn [mbind result_bind].
    destruct (F64.scan_step width x (lo, up) p) as [lo' up'] eqn:E.
    cbn [fst snd].
    rewrite (IH _ _ lo' up');
      [ | apply list_lookup_insert_eq; assumption
        | apply list_lookup_insert_eq; assumption ].
    rewrite !list_insert_insert_eq. reflexivity.
Qed.

Lemma f64_band_update_out_of_range (p : spec_float * spec_float) (b : F64.bounds) :
  (length (F64.lower_y b) <= index)%nat ->
  F64.band_update width index x b p =
  if F64.in_window width x p then Raise IndexError else Ok b.
Proof.
  intros Hlen. unfold F64.band_update, F64.getitem.
  rewrite (lookup_ge_None_2 _ _ Hlen). reflexivity.
Qed.

(** At an index past the end the first sample inside the window raises. *)
Lemma f64_row_out_of_range (ps : list (spec_float * spec_float)) (b : F64.bounds) :
  (length (F64.lower_y b) <= index)%nat ->
  for_each (F64.band_update width index x) ps b =
  if F64.row_touches width ps x then Raise IndexError else Ok b.
Proof.
  intros Hlen. unfold F64.row_touches.
  induction ps as [|p ps IH]; [reflexivity|].
  cbn [for_each existsb].
  rewrite f64_band_update_out_of_range by assumption.
  destruct (F64.in_window width x p); cbn; [reflexivity | apply IH].
Qed.
End F64Row.

(** ** All rows *)

Section F64Rows.
Variables (x_data y_data : list spec_float) (width : spec_float).

Lemma f64_band_row_item (b : F64.bounds) (index : nat) (x : spec_float) :
  F64.band_row x_data y_data width b (index, x) =
  for_each (F64.band_update width index x) (zip x_data y_data) b.
Proof. reflexivity. Qed.

(** Rows whose indices lie inside the arrays fill them from left to
    right; entries not reached yet keep the value [np.full] gave them. *)
Lemma f64_rows_in_range (xs : list spec_float) :
  forall (done_l done_u : list spec_float) (k : nat),
    length done_l = length done_u ->
    for_each (F64.band_row x_data y_data width) (enumerate_from (length done_l) xs)
      (F64.Bounds (done_l ++ replicate (length xs + k) F64.inf)
              (done_u ++ replicate (length xs + k) F64.neg_inf)) =
    Ok (F64.Bounds (done_l ++ map (fun x => fst (F64.row_bounds width (zip x_data y_data) x)) xs
                       ++ replicate k F64.inf)
               (done_u ++ map (fun x => snd (F64.row_bounds width (zip x_data y_data) x)) xs
                       ++ replicate k F64.neg_inf)).
Proof.
  induction xs as [|x xs IH]; intros done_l done_u k Hlen; [reflexivity|].
  cbn [enumerate_from for_each length Nat.add replicate map app].
  rewrite f64_band_row_item.
  rewrite (f64_row_in_range width (length done_l) x (zip x_data y_data) _ _ F64.inf F64.neg_inf).
  - cbn [mbind result_bind]. fold (F64.row_bounds width (zip x_data y_data) x).
    rewrite (insert_middle done_l), Hlen, (insert_middle done_u), <- Hlen.
    rewrite !(cons_middle _ done_l), !(cons_middle _ done_u), !app_assoc.
    specialize (IH (done_l ++ [(F64.row_bounds width (zip x_data y_data) x).1])
                   (done_u ++ [(F64.row_bounds width (zip x_data y_data) x).2]) k).
    rewrite !length_app in IH. cbn [length] in IH.
    rewrite Nat.add_1_r in IH.
    rewrite IH by lia.
    rewrite <- !app_assoc. reflexivity.
  - apply list_lookup_middle. reflexivity.
  - apply list_lookup_middle. exact Hlen.
Qed.

(** Rows whose indices lie past the end raise as soon as one of them has
    a sample inside its window, and otherwise leave the arrays alone. *)
Lemma f64_rows_out_of_range (xs : list spec_float) :
  forall (k : nat) (b : F64.bounds),
    (length (F64.lower_y b) <= k)%nat ->
    for_each (F64.band_row x_data y_data width) (enumerate_from k xs) b =
    if existsb (F64.row_touches width (zip x_data y_data)) xs then Raise IndexError else Ok b.
Proof.
  induction xs as [|x xs IH]; intros k b Hlen; [reflexivity|].
  cbn [enumerate_from for_each existsb].
  rewrite f64_band_row_item.
  rewrite f64_row_out_of_range by assumption.
  destruct (F64.row_touches width (zip x_data y_data) x); cbn; [reflexivity|].
  apply IH. lia.
Qed.

(** The double loop in closed form. *)
Theorem f64_plot_band_envelope_eq :
  F64.plot_band_envelope x_data y_data width =
  if existsb (F64.row_touches width (zip x_data y_data)) (drop (length y_data) x_data)
  then Raise IndexError
  else Ok (F64.Bounds
             (map (fun x => fst (F64.row_bounds width (zip x_data y_data) x)) (take (length y_data) x_data)
                ++ replicate (length y_data - length x_data) F64.inf)
             (map (fun x => snd (F64.row_bounds width (zip x_data y_data) x)) (take (length y_data) x_data)
                ++ replicate (length y_data - length x_data) F64.neg_inf)).
Proof.
  unfold F64.plot_band_envelope, enumerate, F64.initial_bounds.
  replace (enumerate_from 0 x_data)
    with (enumerate_from 0 (take (length y_data) x_data ++ drop (length y_data) x_data))
    by (rewrite take_drop; reflexivity).
  rewrite enumerate_from_app, for_each_app.
  pose proof (f64_rows_in_range (take (length y_data) x_data) [] []
                (length y_data - length x_data) eq_refl) as Hin.
  cbn [length app] in Hin.
  replace (length (take (length y_data) x_data)
           + (length y_data - length x_data))%nat
    with (length y_data) in Hin by (rewrite length_take; lia).
  rewrite Hin. cbn [mbind result_bind].
  destruct (decide (length x_data <= length y_data)%nat) as [Hle|Hgt].
  - rewrite drop_ge by assumption. reflexivity.
  - apply f64_rows_out_of_range.
    cbn [F64.lower_y Nat.add].
    rewrite length_app, length_map, length_replicate, length_take. lia.
Qed.
End F64Rows.

Lemma f64_plot_band_envelope_short_x (x_data y_data : list spec_float) (width : spec_float) :
  (length x_data <= length y_data)%nat ->
  F64.plot_band_envelope x_data y_data width =
  Ok (F64.Bounds
        (map (fun x => fst (F64.row_bounds width (zip x_data y_data) x)) x_data
           ++ replicate (length y_data - length x_data) F64.inf)
        (map (fun x => snd (F64.row_bounds width (zip x_data y_data) x)) x_data
           ++ replicate (length y_data - length x_data) F64.neg_inf)).
Proof.
  intros Hle. rewrite f64_plot_band_envelope_eq.
  rewrite drop_ge, take_ge by assumption. reflexivity.
Qed.

Lemma f64_plot_band_envelope_series (x_data y_data : list spec_float) (width : spec_float) :
  length x_data = length y_data ->
  F64.plot_band_envelope x_data y_data width =
  Ok (F64.Bounds
        (map (fun x => fst (F64.row_bounds width (zip x_data y_data) x)) x_data)
        (map (fun x => snd (F64.row_bounds width (zip x_data y_data) x)) x_data)).
Proof.
  intros Hlen. rewrite f64_plot_band_envelope_short_x by lia.
  rewrite Hlen, Nat.sub_diag. cbn [replicate]. rewrite !app_nil_r. reflexivity.
Qed.

Lemma f64_touches_past_end_iff (x_data y_data : list spec_float) (width : spec_float) :
  existsb (F64.row_touches width (zip x_data y_data)) (drop (length y_data) x_data) = true
  <-> F64.touches_past_end x_data y_data width.
Proof.
  unfold F64.touches_past_end, F64.row_touches. rewrite existsb_exists. split.
  - intros (xi & Hin & Hex).
    apply list_elem_of_In, list_elem_of_lookup_1 in Hin as [k Hk].
    rewrite lookup_drop in Hk.
    apply existsb_exists in Hex as ([xj yj] & Hin & Hw).
    apply list_elem_of_In, list_elem_of_lookup_1 in Hin as [j Hj].
    apply lookup_zip_with_Some in Hj as (xj' & yj' & Heq & Hxj & Hyj).
    inversion Heq; subst xj' yj'.
    exists (length y_data + k)%nat, j, xi, xj.
    split; [lia|]. split; [eapply lookup_lt_Some, Hyj|].
    split; [exact Hk|]. split; [exact Hxj|]. exact Hw.
  - intros (i & j & xi & xj & Hi & Hj & Hxi & Hxj & Hw).
    destruct (lookup_lt_is_Some_2 y_data j Hj) as [yj Hyj].
    exists xi. split.
    + apply list_elem_of_In, (list_elem_of_lookup_2 _ (i - length y_data)).
      rewrite lookup_drop. rewrite <- Hxi. f_equal. lia.
    + apply existsb_exists. exists (xj, yj). split.
      * apply list_elem_of_In, (list_elem_of_lookup_2 _ j).
        apply lookup_zip_with_Some. eauto.
      * exact Hw.
Qed.

(** ** The scan of one window *)

Section F64Scan.
Variables (width x : spec_float).

Lemma f64_scan_step_fst (lo up : spec_float) (p : spec_float * spec_float) :
  fst (F64.scan_step width x (lo, up) p) =
  if F64.in_window width x p && F64.ltb (snd p) lo then snd p else lo.
Proof.
  unfold F64.scan_step. cbn [fst snd].
  destruct (F64.in_window width x p); [|reflexivity].
  destruct (F64.ltb p.2 lo); [reflexivity|].
  destruct (F64.ltb up p.2); reflexivity.
Qed.

(** Each component is its initial value or the y of a sample of the
    window. *)
Lemma f64_scan_fst_attained (ps : list (spec_float * spec_float)) :
  forall acc : spec_float * spec_float,
    fst (F64.scan width x ps acc) = fst acc \/
    exists (j : nat) (p : spec_float * spec_float),
      ps !! j = Some p /\ F64.in_window width x p = true /\
      fst (F64.scan width x ps acc) = snd p.
Proof.
  induction ps as [|q ps IH]; intros acc; cbn [F64.scan fold_left].
  - left. reflexivity.
  - destruct (IH (F64.scan_step width x acc q)) as [H|(j & p & Hj & Hw & H)].
    + fold (F64.scan width x ps (F64.scan_step width x acc q)). rewrite H.
      destruct acc as [lo up]. rewrite f64_scan_step_fst.
      destruct (F64.in_window width x q) eqn:Hw; cbn [andb]; [|left; reflexivity].
      destruct (F64.ltb q.2 lo); [|left; reflexivity].
      right. exists 0%nat, q. auto.
    + right. exists (S j), p. auto.
Qed.

Lemma f64_scan_snd_attained (ps : list (spec_float * spec_float)) :
  forall acc : spec_float * spec_float,
    snd (F64.scan width x ps acc) = snd acc \/
    exists (j : nat) (p : spec_float * spec_float),
      ps !! j = Some p /\ F64.in_window width x p = true /\
      snd (F64.scan width x ps acc) = snd p.
Proof.
  induction ps as [|q ps IH]; intros acc; cbn [F64.scan fold_left].
  - left. reflexivity.
  - destruct (IH (F64.scan_step width x acc q)) as [H|(j & p & Hj & Hw & H)].
    + fold (F64.scan width x ps (F64.scan_step width x acc q)). rewrite H.
      unfold F64.scan_step.
      destruct (F64.in_window width x q) eqn:Hw; [|left; reflexivity].
      destruct (F64.ltb q.2 acc.1); [left; reflexivity|].
      destruct (F64.ltb acc.2 q.2); [|left; reflexivity].
      right. exists 0%nat, q. auto.
    + right. exists (S j), p. auto.
Qed.

(** Neither component ever becomes NaN. *)
Lemma f64_scan_step_not_nan (acc : spec_float * spec_float) (p : spec_float * spec_float) :
  F64.is_nan (fst acc) = false -> F64.is_nan (snd acc) = false ->
  F64.is_nan (fst (F64.scan_step width x acc p)) = false /\
  F64.is_nan (snd (F64.scan_step width x acc p)) = false.
Proof.
  intros Hlo Hup. unfold F64.scan_step.
  destruct (F64.in_window width x p); [|auto].
  destruct (F64.ltb p.2 acc.1) eqn:L; cbn [fst snd].
  - apply f64_ltb_not_nan in L as [L _]. auto.
  - destruct (F64.ltb acc.2 p.2) eqn:U; cbn [fst snd]; [|auto].
    apply f64_ltb_not_nan in U as [_ U]. auto.
Qed.

(** The running minimum never rises and the running maximum never falls. *)
Lemma f64_scan_step_widens (acc : spec_float * spec_float) (p : spec_float * spec_float) :
  F64.is_nan (fst acc) = false -> F64.is_nan (snd acc) = false ->
  F64.leb (fst (F64.scan_step width x acc p)) (fst acc) = true /\
  F64.leb (snd acc) (snd (F64.scan_step width x acc p)) = true.
Proof.
  intros Hlo Hup. unfold F64.scan_step.
  destruct (F64.in_window width x p); [|split; apply f64_leb_refl; assumption].
  destruct (F64.ltb p.2 acc.1) eqn:E1; cbn [fst snd].
  - split; [apply f64_ltb_leb, E1 | apply f64_leb_refl, Hup].
  - destruct (F64.ltb acc.2 p.2) eqn:E2; cbn [fst snd].
    + split; [apply f64_leb_refl, Hlo | apply f64_ltb_leb, E2].
    + split; apply f64_leb_refl; assumption.
Qed.

Lemma f64_scan_widens (ps : list (spec_float * spec_float)) :
  forall acc : spec_float * spec_float,
    F64.is_nan (fst acc) = false -> F64.is_nan (snd acc) = false ->
    F64.leb (fst (F64.scan width x ps acc)) (fst acc) = true /\
    F64.leb (snd acc) (snd (F64.scan width x ps acc)) = true.
Proof.
  induction ps as [|p ps IH]; intros acc Hlo Hup; cbn [F64.scan fold_left].
  - split; apply f64_leb_refl; assumption.
  - destruct (f64_scan_step_not_nan acc p Hlo Hup) as [Hlo' Hup'].
    destruct (IH (F64.scan_step width x acc p) Hlo' Hup') as [H1 H2].
    destruct (f64_scan_step_widens acc p Hlo Hup) as [H3 H4].
    split; eapply f64_leb_trans; eassumption.
Qed.

(** The first component is at or below every sample of the window whose y
    is a number. *)
Lemma f64_scan_fst_below (ps : list (spec_float * spec_float)) :
  forall (acc : spec_float * spec_float) (p : spec_float * spec_float),
    F64.is_nan (fst acc) = false -> F64.is_nan (snd acc) = false ->
    p ∈ ps -> F64.in_window width x p = true -> F64.is_nan (snd p) = false ->
    F64.leb (fst (F64.scan width x ps acc)) (snd p) = true.
Proof.
  induction ps as [|q ps IH]; intros acc p Hlo Hup Hin Hw Hp.
  - inversion Hin.
  - cbn [F64.scan fold_left].
    destruct (f64_scan_step_not_nan acc q Hlo Hup) as [Hlo' Hup'].
    apply elem_of_cons in Hin as [->|Hin].
    + eapply f64_leb_trans; [apply f64_scan_widens; assumption|].
      destruct acc as [lo up]. rewrite f64_scan_step_fst, Hw. cbn [andb].
      destruct (F64.ltb q.2 lo) eqn:E.
      * apply f64_leb_refl, Hp.
      * apply f64_ltb_false_leb; assumption.
    + apply IH; assumption.
Qed.

(** A sample of the window scanned while the minimum is at or below it is
    tried as a maximum. *)
Lemma f64_scan_snd_above (ps : list (spec_float * spec_float)) :
  forall (acc : spec_float * spec_float) (p : spec_float * spec_float),
    F64.is_nan (fst acc) = false -> F64.is_nan (snd acc) = false ->
    p ∈ ps -> F64.in_window width x p = true ->
    F64.leb (fst acc) (snd p) = true ->
    F64.leb (snd p) (snd (F64.scan width x ps acc)) = true.
Proof.
  induction ps as [|q ps IH]; intros acc p Hlo Hup Hin Hw Hle.
  - inversion Hin.
  - cbn [F64.scan fold_left].
    destruct (f64_scan_step_not_nan acc q Hlo Hup) as [Hlo' Hup'].
    apply elem_of_cons in Hin as [->|Hin].
    + eapply f64_leb_trans; [|apply f64_scan_widens; assumption].
      pose proof (f64_leb_not_nan _ _ Hle) as [_ Hq].
      unfold F64.scan_step. rewrite Hw, (f64_leb_ltb_false _ _ Hle).
      destruct (F64.ltb acc.2 q.2) eqn:U; cbn [snd].
      * apply f64_leb_refl, Hq.
      * apply f64_ltb_false_leb; assumption.
    + apply IH; try assumption.
      eapply f64_leb_trans; [apply f64_scan_step_widens; assumption | exact Hle].
Qed.

Lemma f64_scan_snd_above_later (ps : list (spec_float * spec_float)) :
  forall (acc : spec_float * spec_float) (j k : nat) (pj pk : spec_float * spec_float),
    F64.is_nan (fst acc) = false -> F64.is_nan (snd acc) = false ->
    (j < k)%nat -> ps !! j = Some pj -> ps !! k = Some pk ->
    F64.in_window width x pj = true -> F64.in_window width x pk = true ->
    F64.leb (snd pj) (snd pk) = true ->
    F64.leb (snd pk) (snd (F64.scan width x ps acc)) = true.
Proof.
  induction ps as [|q ps IH]; intros acc j k pj pk Hlo Hup Hjk Hj Hk Hwj Hwk Hle.
  - discriminate.
  - destruct k as [|k]; [lia|]. cbn in Hk. cbn [F64.scan fold_left].
    destruct (f64_scan_step_not_nan acc q Hlo Hup) as [Hlo' Hup'].
    destruct j as [|j].
    + cbn in Hj. injection Hj as ->.
      apply f64_scan_snd_above; try assumption.
      * eapply list_elem_of_lookup_2, Hk.
      * apply (f64_leb_trans _ pj.2); [|exact Hle].
        pose proof (f64_leb_not_nan _ _ Hle) as [Hpj _].
        destruct acc as [lo up]. rewrite f64_scan_step_fst, Hwj. cbn [andb].
        destruct (F64.ltb pj.2 lo) eqn:L.
        -- apply f64_leb_refl, Hpj.
        -- apply f64_ltb_false_leb; assumption.
    + cbn in Hj. apply (IH _ j k pj pk); auto. lia.
Qed.
End F64Scan.

(** The scan depends on [x] only through the window test. *)
Lemma f64_scan_ext (width x x' : spec_float) (ps : list (spec_float * spec_float)) :
  (forall p, p ∈ ps -> F64.in_window width x p = F64.in_window width x' p) ->
  forall acc, F64.scan width x ps acc = F64.scan width x' ps acc.
Proof.
  induction ps as [|q ps IH]; intros H acc; [reflexivity|].
  cbn [F64.scan fold_left].
  assert (Hq : F64.scan_step width x acc q = F64.scan_step width x' acc q).
  { unfold F64.scan_step. rewrite (H q) by apply list_elem_of_here. reflexivity. }
  rewrite Hq. apply IH. intros p Hp. apply H, list_elem_of_further, Hp.
Qed.

(** Every pair of entries the loop returns is the scan of a row, or the
    pair of initial values. *)
Lemma f64_plot_band_envelope_entry (x_data y_data : list spec_float) (width : spec_float)
    (b : F64.bounds) (i : nat) (l u : spec_float) :
  F64.plot_band_envelope x_data y_data width = Ok b ->
  F64.lower_y b !! i = Some l ->
  F64.upper_y b !! i = Some u ->
  (exists xi, x_data !! i = Some xi /\
              l = fst (F64.row_bounds width (zip x_data y_data) xi) /\
              u = snd (F64.row_bounds width (zip x_data y_data) xi))
  \/ (l = F64.inf /\ u = F64.neg_inf).
Proof.
  rewrite f64_plot_band_envelope_eq.
  destruct (existsb _ _); [discriminate|].
  intros [= <-]. cbn [F64.lower_y F64.upper_y]. intros Hl Hu.
  destruct (take (length y_data) x_data !! i) as [xi|] eqn:Hi.
  - left. exists xi.
    pose proof (lookup_lt_Some _ _ _ Hi) as Hlt.
    rewrite lookup_app_l in Hl by (rewrite length_map; exact Hlt).
    rewrite lookup_app_l in Hu by (rewrite length_map; exact Hlt).
    rewrite list_lookup_fmap, Hi in Hl. rewrite list_lookup_fmap, Hi in Hu.
    cbn in Hl, Hu. injection Hl as <-. injection Hu as <-.
    apply lookup_take_Some in Hi as [Hi _]. auto.
  - right. apply lookup_ge_None in Hi.
    rewrite lookup_app_r in Hl by (rewrite length_map; exact Hi).
    rewrite lookup_app_r in Hu by (rewrite length_map; exact Hi).
    apply lookup_replicate in Hl as [-> _].
    apply lookup_replicate in Hu as [-> _]. auto.
Qed.

Lemma f64_inf_leb (a : spec_float) : F64.leb F64.inf a = true -> a = F64.inf.
Proof.
  unfold F64.leb, SFleb.
  destruct a as [s|[|]| |s m e]; cbn; try discriminate; reflexivity.
Qed.

(** A finite number minus itself is zero. *)
Lemma f64_sub_self (x : spec_float) :
  F64.is_finite x = true ->
  SFabs (SFsub F64.prec F64.emax x x) = S754_zero false.
Proof.
  destruct x as [s|s| |s m e]; try discriminate; intros _.
  - destruct s; reflexivity.
  - unfold SFsub. rewrite Z.min_id. unfold shl_align.
    rewrite Z.sub_diag. cbn [fst].
    replace (cond_Zopp s (Z.pos m) - cond_Zopp s (Z.pos m))%Z with 0%Z by lia.
    reflexivity.
Qed.

(** ** Properties *)

(** C3, as stated, fails: the window test is computed in float64.  For
    x = [1e16, 1.0], y = [5.0, 1.0], width = 1e16 the difference
    1e16 - 1.0 is rounded to 1e16, which is not below the width: sample 1 is
    left out of the window of index 0 and lower[0] is 5, although
    |x[0] - x[1]| < width holds for the numbers themselves and y[1] = 1 is
    smaller. *)
Lemma f64_window_minimum_missed :
  F64.plot_band_envelope [F64.of_Z (10 ^ 16); F64.of_Z 1] [F64.of_Z 5; F64.of_Z 1]
                         (F64.of_Z (10 ^ 16)) =
    Ok (F64.Bounds [F64.of_Z 5; F64.of_Z 1] [F64.neg_inf; F64.neg_inf])
  /\ exists x0 x1 w y1 l0 : Q,
       F64.to_Q (F64.of_Z (10 ^ 16)) = Some x0 /\
       F64.to_Q (F64.of_Z 1) = Some x1 /\
       F64.to_Q (F64.of_Z (10 ^ 16)) = Some w /\
       F64.to_Q (F64.of_Z 1) = Some y1 /\
       F64.to_Q (F64.of_Z 5) = Some l0 /\
       Qabs (x0 - x1) < w /\ y1 < l0.
Proof.
  split; [vm_compute; reflexivity|].
  do 5 eexists.
  repeat (split; [vm_compute; reflexivity|]).
  split; vm_compute; reflexivity.
Qed.

(** C3, amended.  On float64 arrays of equal length whose y holds no NaN,
    at every index i whose window is not empty, lower[i] is the least y[j]
    over the samples j that pass the test abs(x[i] - x[j]) < width as the
    code computes it (float64 subtraction, rounded): it is the y of one of
    them and is at or below the y of each of them. *)
Theorem f64_lower_is_window_minimum
    (x_data y_data : list spec_float) (width : spec_float) (i : nat) (xi : spec_float) :
  length x_data = length y_data ->
  Forall (fun y => F64.is_nan y = false) y_data ->
  x_data !! i = Some xi ->
  (exists (j : nat) (xj : spec_float),
      x_data !! j = Some xj /\
      F64.ltb (SFabs (SFsub F64.prec F64.emax xi xj)) width = true) ->
  exists (b : F64.bounds) (j : nat) (xj yj : spec_float),
    F64.plot_band_envelope x_data y_data width = Ok b /\
    x_data !! j = Some xj /\ y_data !! j = Some yj /\
    F64.ltb (SFabs (SFsub F64.prec F64.emax xi xj)) width = true /\
    F64.lower_y b !! i = Some yj /\
    forall (k : nat) (xk yk : spec_float),
      x_data !! k = Some xk -> y_data !! k = Some yk ->
      F64.ltb (SFabs (SFsub F64.prec F64.emax xi xk)) width = true ->
      F64.leb yj yk = true.
Proof.
  intros Hlen Hnan Hi (j0 & xj0 & Hj0 & Hw0).
  rewrite f64_plot_band_envelope_series by assumption.
  set (ps := zip x_data y_data).
  assert (Hbelow : forall k xk yk,
             x_data !! k = Some xk -> y_data !! k = Some yk ->
             F64.ltb (SFabs (SFsub F64.prec F64.emax xi xk)) width = true ->
             F64.leb (fst (F64.row_bounds width ps xi)) yk = true).
  { intros k xk yk Hxk Hyk Hw.
    apply (f64_scan_fst_below width xi ps _ (xk, yk)); try reflexivity.
    - apply (list_elem_of_lookup_2 _ k). apply lookup_zip_with_Some. eauto.
    - exact Hw.
    - rewrite Forall_forall in Hnan. apply Hnan.
      eapply list_elem_of_lookup_2, Hyk. }
  assert (Hlook : F64.lower_y
                    (F64.Bounds (map (fun x => fst (F64.row_bounds width ps x)) x_data)
                                (map (fun x => snd (F64.row_bounds width ps x)) x_data))
                    !! i = Some (fst (F64.row_bounds width ps xi))).
  { cbn [F64.lower_y]. rewrite list_lookup_fmap, Hi. reflexivity. }
  eexists.
  destruct (f64_scan_fst_attained width xi ps (F64.inf, F64.neg_inf))
    as [Hinit | (j & [xj yj] & Hj & Hw & Hfst)].
  - destruct (lookup_lt_is_Some_2 y_data j0) as [yj0 Hyj0].
    { rewrite <- Hlen. eapply lookup_lt_Some, Hj0. }
    pose proof (Hbelow j0 xj0 yj0 Hj0 Hyj0 Hw0) as H0.
    unfold F64.row_bounds in H0, Hlook, Hbelow.
    rewrite Hinit in H0, Hlook, Hbelow. cbn [fst] in H0, Hlook, Hbelow.
    apply f64_inf_leb in H0. subst yj0.
    exists j0, xj0, F64.inf.
    split; [reflexivity|]. split; [exact Hj0|]. split; [exact Hyj0|].
    split; [exact Hw0|]. split; [exact Hlook|].
    exact Hbelow.
  - apply lookup_zip_with_Some in Hj as (xj' & yj' & Heq & Hxj & Hyj).
    inversion Heq; subst xj' yj'.
    unfold F64.row_bounds in Hlook, Hbelow.
    rewrite Hfst in Hlook, Hbelow. cbn [snd] in Hlook, Hbelow.
    exists j, xj, yj.
    split; [reflexivity|]. split; [exact Hxj|]. split; [exact Hyj|].
    split; [exact Hw|]. split; [exact Hlook|].
    exact Hbelow.
Qed.

Lemma f64_lower_is_window_minimum_witness :
  exists (b : F64.bounds) (j : nat) (xj yj : spec_float),
    F64.plot_band_envelope [F64.of_Z (10 ^ 16); F64.of_Z 1] [F64.of_Z 5; F64.of_Z 1]
                           (F64.of_Z (10 ^ 16)) = Ok b /\
    [F64.of_Z (10 ^ 16); F64.of_Z 1] !! j = Some xj /\
    [F64.of_Z 5; F64.of_Z 1] !! j = Some yj /\
    F64.ltb (SFabs (SFsub F64.prec F64.emax (F64.of_Z (10 ^ 16)) xj))
            (F64.of_Z (10 ^ 16)) = true /\
    F64.lower_y b !! 0%nat = Some yj /\
    forall (k : nat) (xk yk : spec_float),
      [F64.of_Z (10 ^ 16); F64.of_Z 1] !! k = Some xk ->
      [F64.of_Z 5; F64.of_Z 1] !! k = Some yk ->
      F64.ltb (SFabs (SFsub F64.prec F64.emax (F64.of_Z (10 ^ 16)) xk))
              (F64.of_Z (10 ^ 16)) = true ->
      F64.leb yj yk = true.
Proof.
  apply (f64_lower_is_window_minimum
           [F64.of_Z (10 ^ 16); F64.of_Z 1] [F64.of_Z 5; F64.of_Z 1]
           (F64.of_Z (10 ^ 16)) 0 (F64.of_Z (10 ^ 16))).
  - reflexivity.
  - repeat constructor.
  - reflexivity.
  - exists 0%nat, (F64.of_Z (10 ^ 16)). split; [reflexivity | vm_compute; reflexivity].
Defined.

(** C10, as stated, fails: with two x and one y, row 1 finds sample 0
    inside its window and indexes the arrays past their end. *)
Lemma f64_longer_x_raises :
  F64.plot_band_envelope [F64.of_Z 0; F64.of_Z 1] [F64.of_Z 5] (F64.of_scaled 3 (-1)) =
  Raise IndexError.
Proof. vm_compute. reflexivity. Qed.

(** C10, amended.  On float64 arrays: with fewer x than y the loop
    completes, the first len(x) entries of each array being those computed
    from x and the first len(x) entries of y and the other entries keeping
    their initial value.  With more x than y the loop raises IndexError when
    a row at an index >= len(y) finds one of the first len(y) samples inside
    its window, by the test abs(x[i] - x[j]) < width as the code computes
    it, and otherwise completes with the result for the first len(y) entries
    of x and y. *)
Theorem f64_length_mismatch_behaviour
    (x_data y_data : list spec_float) (width : spec_float) :
  length x_data <> length y_data ->
  ((length x_data < length y_data)%nat ->
   exists b : F64.bounds,
     F64.plot_band_envelope x_data (take (length x_data) y_data) width = Ok b /\
     F64.plot_band_envelope x_data y_data width =
       Ok (F64.Bounds
             (F64.lower_y b ++ replicate (length y_data - length x_data) F64.inf)
             (F64.upper_y b ++ replicate (length y_data - length x_data) F64.neg_inf)))
  /\
  ((length y_data < length x_data)%nat ->
   (F64.touches_past_end x_data y_data width ->
    F64.plot_band_envelope x_data y_data width = Raise IndexError) /\
   (~ F64.touches_past_end x_data y_data width ->
    exists b : F64.bounds,
      F64.plot_band_envelope (take (length y_data) x_data) y_data width = Ok b /\
      F64.plot_band_envelope x_data y_data width = Ok b)).
Proof.
  intros _. split.
  - intros Hlt.
    rewrite (f64_plot_band_envelope_short_x x_data y_data) by lia.
    rewrite f64_plot_band_envelope_series by (rewrite length_take; lia).
    rewrite zip_with_take_r.
    eexists. split; reflexivity.
  - intros Hlt.
    pose proof (f64_touches_past_end_iff x_data y_data width) as Hiff.
    rewrite f64_plot_band_envelope_eq.
    destruct (existsb (F64.row_touches width (zip x_data y_data))
                (drop (length y_data) x_data)).
    + split; [reflexivity|].
      intros Hno. destruct Hno. apply Hiff. reflexivity.
    + split.
      * intros Ht. apply Hiff in Ht. discriminate.
      * intros _.
        rewrite f64_plot_band_envelope_series by (rewrite length_take; lia).
        rewrite zip_with_take_l.
        replace (length y_data - length x_data)%nat with 0%nat by lia.
        cbn [replicate]. rewrite !app_nil_r.
        eexists. split; reflexivity.
Qed.

Lemma f64_length_mismatch_behaviour_witness :
  (exists b : F64.bounds,
     F64.plot_band_envelope [F64.of_Z 0; F64.of_Z 1; F64.of_Z 2]
       (take 3 [F64.of_Z 5; F64.of_Z 1; F64.of_Z 9; F64.of_Z 3])
       (F64.of_scaled 3 (-1)) = Ok b /\
     F64.plot_band_envelope [F64.of_Z 0; F64.of_Z 1; F64.of_Z 2]
       [F64.of_Z 5; F64.of_Z 1; F64.of_Z 9; F64.of_Z 3] (F64.of_scaled 3 (-1)) =
       Ok (F64.Bounds (F64.lower_y b ++ replicate 1 F64.inf)
                      (F64.upper_y b ++ replicate 1 F64.neg_inf)))
  /\ F64.plot_band_envelope [F64.of_Z 1; F64.of_Z (10 ^ 16); F64.of_Z 0] [F64.of_Z 5]
       (F64.of_Z (10 ^ 16)) = Raise IndexError
  /\ exists b : F64.bounds,
       F64.plot_band_envelope [F64.of_Z 1; F64.of_Z (10 ^ 16)] [F64.of_Z 5]
         (F64.of_Z (10 ^ 16)) = Ok b.
Proof.
  split; [|split].
  - apply (f64_length_mismatch_behaviour
             [F64.of_Z 0; F64.of_Z 1; F64.of_Z 2]
             [F64.of_Z 5; F64.of_Z 1; F64.of_Z 9; F64.of_Z 3] (F64.of_scaled 3 (-1))).
    + cbn [length]. lia.
    + cbn [length]. lia.
  - apply (f64_length_mismatch_behaviour
             [F64.of_Z 1; F64.of_Z (10 ^ 16); F64.of_Z 0] [F64.of_Z 5]
             (F64.of_Z (10 ^ 16))).
    + cbn [length]. lia.
    + cbn [length]. lia.
    + exists 2%nat, 0%nat, (F64.of_Z 0), (F64.of_Z 1).
      split; [cbn [length]; lia|]. split; [cbn [length]; lia|].
      split; [reflexivity|]. split; [reflexivity|]. vm_compute. reflexivity.
  - destruct (f64_length_mismatch_behaviour
                [F64.of_Z 1; F64.of_Z (10 ^ 16)] [F64.of_Z 5] (F64.of_Z (10 ^ 16)))
      as [_ Hlong].
    + cbn [length]. lia.
    + destruct Hlong as [_ Hno]; [cbn [length]; lia|].
      destruct Hno as (b & _ & Hb).
      * intros (i & j & xi & xj & Hi & Hj & Hxi & Hxj & Hw).
        cbn [length] in Hi, Hj.
        destruct j as [|j]; [|lia].
        destruct i as [|[|i]]; [lia| |discriminate].
        vm_compute in Hxi. vm_compute in Hxj.
        injection Hxi as <-. injection Hxj as <-.
        vm_compute in Hw. discriminate.
      * exists b. exact Hb.
Defined.

(** X2. On float64 arrays the loop invents no value: an entry of lower_y
    is +inf or an entry of y_data, an entry of upper_y is -inf or an entry of
    y_data. *)
Theorem f64_envelope_values_from_data
    (x_data y_data : list spec_float) (width : spec_float) (b : F64.bounds)
    (i : nat) (l u : spec_float) :
  F64.plot_band_envelope x_data y_data width = Ok b ->
  F64.lower_y b !! i = Some l ->
  F64.upper_y b !! i = Some u ->
  (l = F64.inf \/ exists j : nat, y_data !! j = Some l) /\
  (u = F64.neg_inf \/ exists j : nat, y_data !! j = Some u).
Proof.
  intros Hb Hl Hu.
  destruct (f64_plot_band_envelope_entry _ _ _ _ _ _ _ Hb Hl Hu)
    as [(xi & _ & -> & ->)|[-> ->]]; [|auto].
  unfold F64.row_bounds. split.
  - destruct (f64_scan_fst_attained width xi (zip x_data y_data) (F64.inf, F64.neg_inf))
      as [H|(j & p & Hj & _ & H)]; [left; exact H|right].
    apply lookup_zip_with_Some in Hj as (xj & yj & -> & _ & Hyj).
    exists j. rewrite H. exact Hyj.
  - destruct (f64_scan_snd_attained width xi (zip x_data y_data) (F64.inf, F64.neg_inf))
      as [H|(j & p & Hj & _ & H)]; [left; exact H|right].
    apply lookup_zip_with_Some in Hj as (xj & yj & -> & _ & Hyj).
    exists j. rewrite H. exact Hyj.
Qed.

Lemma f64_envelope_values_from_data_witness :
  (F64.of_Z 1 = F64.inf \/
   exists j : nat, [F64.of_Z 1; F64.of_Z 5] !! j = Some (F64.of_Z 1)) /\
  (F64.of_Z 5 = F64.neg_inf \/
   exists j : nat, [F64.of_Z 1; F64.of_Z 5] !! j = Some (F64.of_Z 5)).
Proof.
  apply (f64_envelope_values_from_data
           [F64.of_Z 1; F64.of_Z 0] [F64.of_Z 1; F64.of_Z 5] (F64.of_Z 2)
           (F64.Bounds [F64.of_Z 1; F64.of_Z 1] [F64.of_Z 5; F64.of_Z 5]) 0).
  - vm_compute. reflexivity.
  - reflexivity.
  - reflexivity.
Defined.

(** X4. On float64 arrays of equal length, a sample k of the window of
    index i that comes after a sample j of the window with y[j] <= y[k] is
    at or below upper[i]; the window is the one the code computes, and
    y[j] <= y[k] holding means neither is NaN.  So upper[i] is the largest y
    of the window whenever that y is attained at a sample which is not the
    first of the window. *)
Theorem f64_upper_above_later_sample
    (x_data y_data : list spec_float) (width : spec_float)
    (i j k : nat) (xi xj yj xk yk : spec_float) :
  length x_data = length y_data ->
  x_data !! i = Some xi ->
  (j < k)%nat ->
  x_data !! j = Some xj -> y_data !! j = Some yj ->
  x_data !! k = Some xk -> y_data !! k = Some yk ->
  F64.ltb (SFabs (SFsub F64.prec F64.emax xi xj)) width = true ->
  F64.ltb (SFabs (SFsub F64.prec F64.emax xi xk)) width = true ->
  F64.leb yj yk = true ->
  exists (b : F64.bounds) (u : spec_float),
    F64.plot_band_envelope x_data y_data width = Ok b /\
    F64.upper_y b !! i = Some u /\
    F64.leb yk u = true.
Proof.
  intros Hlen Hi Hjk Hxj Hyj Hxk Hyk Hwj Hwk Hle.
  rewrite f64_plot_band_envelope_series by assumption.
  do 2 eexists. split; [reflexivity|]. cbn [F64.upper_y].
  rewrite list_lookup_fmap, Hi. split; [reflexivity|].
  unfold F64.row_bounds.
  apply (f64_scan_snd_above_later width xi _ _ j k (xj, yj) (xk, yk));
    try reflexivity; auto.
  - apply lookup_zip_with_Some. eauto.
  - apply lookup_zip_with_Some. eauto.
Qed.

Lemma f64_upper_above_later_sample_witness :
  exists (b : F64.bounds) (u : spec_float),
    F64.plot_band_envelope [F64.of_Z 0; F64.of_Z 1; F64.of_Z 2]
      [F64.of_Z 5; F64.of_Z 1; F64.of_Z 9] (F64.of_Z 2) = Ok b /\
    F64.upper_y b !! 1%nat = Some u /\
    F64.leb (F64.of_Z 9) u = true.
Proof.
  apply (f64_upper_above_later_sample
           [F64.of_Z 0; F64.of_Z 1; F64.of_Z 2] [F64.of_Z 5; F64.of_Z 1; F64.of_Z 9]
           (F64.of_Z 2) 1 1 2 (F64.of_Z 1) (F64.of_Z 1) (F64.of_Z 1)
           (F64.of_Z 2) (F64.of_Z 9));
    try reflexivity.
  lia.
Defined.

(** X6. On float64 arrays of equal length with a width above 0, at every
    index i whose x is finite and whose y is not NaN the sample is in its
    own window, and lower[i] <= y[i]. *)
Theorem f64_lower_at_or_below_curve
    (x_data y_data : list spec_float) (width : spec_float)
    (i : nat) (xi yi : spec_float) :
  length x_data = length y_data ->
  F64.ltb (F64.of_Z 0) width = true ->
  x_data !! i = Some xi ->
  y_data !! i = Some yi ->
  F64.is_finite xi = true ->
  F64.is_nan yi = false ->
  exists (b : F64.bounds) (l : spec_float),
    F64.plot_band_envelope x_data y_data width = Ok b /\
    F64.lower_y b !! i = Some l /\
    F64.leb l yi = true.
Proof.
  intros Hlen Hw Hxi Hyi Hfin Hnan.
  rewrite f64_plot_band_envelope_series by assumption.
  do 2 eexists. split; [reflexivity|]. cbn [F64.lower_y].
  rewrite list_lookup_fmap, Hxi. split; [reflexivity|].
  apply (f64_scan_fst_below width xi _ _ (xi, yi)); try reflexivity.
  - apply (list_elem_of_lookup_2 _ i), lookup_zip_with_Some. eauto.
  - unfold F64.in_window. cbn [fst]. rewrite (f64_sub_self xi Hfin). exact Hw.
  - exact Hnan.
Qed.

Lemma f64_lower_at_or_below_curve_witness :
  exists (b : F64.bounds) (l : spec_float),
    F64.plot_band_envelope [F64.of_Z 0; F64.of_Z 1; F64.of_Z 2]
      [F64.of_Z 5; F64.of_Z 1; F64.of_Z 9] (F64.of_Z 2) = Ok b /\
    F64.lower_y b !! 2%nat = Some l /\
    F64.leb l (F64.of_Z 9) = true.
Proof.
  apply (f64_lower_at_or_below_curve
           [F64.of_Z 0; F64.of_Z 1; F64.of_Z 2] [F64.of_Z 5; F64.of_Z 1; F64.of_Z 9]
           (F64.of_Z 2) 2 (F64.of_Z 2) (F64.of_Z 9));
    reflexivity.
Defined.

(** X7. On float64 arrays [plot_band] raises (IndexError, before any
    request is made) exactly when a row at an index >= len(y_data) finds one
    of the first len(y_data) samples inside its window, by the test as the
    code computes it; in every other case it makes its two requests.  In
    particular it never raises when len(x) <= len(y). *)
Theorem f64_plot_band_raises_iff
    (x_data y_data : list spec_float) (width : spec_float) (scheme : Scheme) :
  (F64.plot_band x_data y_data width scheme = Raise IndexError
   <-> F64.touches_past_end x_data y_data width) /\
  (~ F64.touches_past_end x_data y_data width ->
   exists (lower upper : list spec_float),
     F64.plot_band x_data y_data width scheme =
     Ok [ F64.fill_between x_data lower upper (colour scheme) (7 # 10);
          F64.plot (-1) (-1) "s" (colour scheme) (label scheme) (7 # 10) 15 ]) /\
  ((length x_data <= length y_data)%nat -> ~ F64.touches_past_end x_data y_data width).
Proof.
  pose proof (f64_touches_past_end_iff x_data y_data width) as Hiff.
  unfold F64.plot_band. rewrite f64_plot_band_envelope_eq.
  destruct (existsb _ _); cbn [mbind result_bind].
  - split; [|split].
    + split; [intros _; apply Hiff; reflexivity | reflexivity].
    + intros Hno. destruct Hno. apply Hiff. reflexivity.
    + intros Hle (i & j & xi & xj & Hi & _ & Hxi & _).
      apply lookup_lt_Some in Hxi. lia.
  - split; [|split].
    + split; [discriminate|]. intros Ht. apply Hiff in Ht. discriminate.
    + intros _. do 2 eexists. reflexivity.
    + intros Hle (i & j & xi & xj & Hi & _ & Hxi & _).
      apply lookup_lt_Some in Hxi. lia.
Qed.

(** X9. On float64 arrays of equal length, if every pair of x passes the
    window test as the code computes it, every row scans all the samples:
    each array holds one value at all its indices. *)
Theorem f64_wide_window_constant_band
    (x_data y_data : list spec_float) (width : spec_float) :
  length x_data = length y_data ->
  (forall (i j : nat) (xi xj : spec_float),
      x_data !! i = Some xi -> x_data !! j = Some xj ->
      F64.ltb (SFabs (SFsub F64.prec F64.emax xi xj)) width = true) ->
  exists l u : spec_float,
    F64.plot_band_envelope x_data y_data width =
    Ok (F64.Bounds (replicate (length y_data) l) (replicate (length y_data) u)).
Proof.
  intros Hlen Hall.
  rewrite f64_plot_band_envelope_series by assumption.
  destruct x_data as [|x0 xs] eqn:Ex.
  - exists F64.inf, F64.neg_inf. rewrite <- Hlen. reflexivity.
  - rewrite <- Ex in *.
    assert (Hrow : forall xi, xi ∈ x_data ->
               F64.row_bounds width (zip x_data y_data) xi =
               F64.row_bounds width (zip x_data y_data) x0).
    { intros xi Hin. apply list_elem_of_lookup_1 in Hin as [i Hi].
      unfold F64.row_bounds. apply f64_scan_ext. intros p Hp.
      apply list_elem_of_lookup_1 in Hp as [j Hj].
      apply lookup_zip_with_Some in Hj as (xj & yj & -> & Hxj & _).
      assert (H0 : x_data !! 0%nat = Some x0) by (rewrite Ex; reflexivity).
      unfold F64.in_window. cbn [fst].
      rewrite (Hall i j xi xj Hi Hxj), (Hall 0%nat j x0 xj H0 Hxj).
      reflexivity. }
    exists (fst (F64.row_bounds width (zip x_data y_data) x0)),
           (snd (F64.row_bounds width (zip x_data y_data) x0)).
    rewrite <- Hlen. clear Hlen Hall Ex.
    assert (Hmap : forall (g : spec_float -> spec_float) (c : spec_float)
                          (l : list spec_float),
               (forall a, a ∈ l -> g a = c) -> map g l = replicate (length l) c).
    { intros g c l. induction l as [|a l IH]; intros Hg; [reflexivity|].
      cbn. rewrite (Hg a) by apply list_elem_of_here.
      rewrite IH; [reflexivity|]. intros a' Ha'. apply Hg, list_elem_of_further, Ha'. }
    rewrite (Hmap _ (fst (F64.row_bounds width (zip x_data y_data) x0)) x_data)
      by (intros a Ha; rewrite (Hrow a Ha); reflexivity).
    rewrite (Hmap _ (snd (F64.row_bounds width (zip x_data y_data) x0)) x_data)
      by (intros a Ha; rewrite (Hrow a Ha); reflexivity).
    reflexivity.
Qed.

Lemma f64_wide_window_constant_band_witness :
  exists l u : spec_float,
    F64.plot_band_envelope [F64.of_Z 0; F64.of_Z 1] [F64.of_Z 5; F64.of_Z 1] (F64.of_Z 2) =
    Ok (F64.Bounds (replicate (length [F64.of_Z 5; F64.of_Z 1]) l)
                   (replicate (length [F64.of_Z 5; F64.of_Z 1]) u)).
Proof.
  apply (f64_wide_window_constant_band
           [F64.of_Z 0; F64.of_Z 1] [F64.of_Z 5; F64.of_Z 1] (F64.of_Z 2));
    [reflexivity|].
  intros [|[|i]] [|[|j]] xi xj Hi Hj; try discriminate;
    vm_compute in Hi; vm_compute in Hj;
    injection Hi as <-; injection Hj as <-; vm_compute; reflexivity.
Defined.
